(** * Manual Bitcoin Script simulation: stack, opcode executors, demo runs

    A shallow embedding of [bitcoin-script-manual.js]: the [Stack] class,
    the five mock opcode executors ([OP_DUP], [OP_HASH160],
    [OP_EQUALVERIFY], [OP_CHECKSIG], [OP_EQUAL]) and the two straight-line
    demo runs (P2PKH and P2SH) with their acceptance checks; and of the
    visualisation: the [VisualStack] class with its rendered history and
    the four replays.

    The JavaScript code mutates one [Stack] object in place; here the
    object is threaded through a small state monad [M], so every method
    call [stack.pop()] reads as one monadic step. *)

From stdpp Require Import base decidable option list sets strings pretty.
From Stdlib Require Import ZArith Lia Ascii.

Local Open Scope Z_scope.
Local Open Scope string_scope.
Local Open Scope list_scope.

(** ** JavaScript values that flow through the stack *)

(** The demos push strings; the executors push the numbers [1] and [0].
    [null] is what [pop]/[peek] return on an empty stack, and
    [undefined] is what an out-of-range array read returns.  [JNum n] is
    the number whose value is the integer [n]; an integer that no double
    represents is not a JavaScript number and is printed as the double
    nearest to it, the way a literal is read. *)
Inductive value : Type :=
  | JNull
  | JUndefined
  | JStr (s : string)
  | JNum (n : Z).

#[global] Instance value_eq_dec : EqDecision value.
Proof. solve_decision. Defined.

(** [a === b] on the values above. *)
Definition strict_eq (a b : value) : bool := bool_decide (a = b).

(** ** [Number::toString] on integers *)

(** The Number value of the natural number [a]: the nearest double,
    ties to the even significand, given as the integer it is; [None]
    when [a] rounds to [Infinity]. *)
Definition number_value (a : Z) : option Z :=
  let e := (Z.log2 a - 52)%Z in
  if (e <=? 0)%Z then Some a
  else
    let q := Z.shiftr a e in
    let r := (a - Z.shiftl q e)%Z in
    let half := Z.shiftl 1 (e - 1) in
    let q' := if (half <? r)%Z || ((r =? half)%Z && Z.odd q)
              then (q + 1)%Z else q in
    let x := Z.shiftl q' e in
    if (2 ^ 1024 <=? x)%Z then None else Some x.

(** Of the two multiples of [10 ^ p] around the double [x], the one
    whose Number value is [x]; the closer one when both qualify, and the
    one with the even quotient when they are equally close. *)
Definition decimal_candidate (x p : Z) : option Z :=
  let lo := (x / 10 ^ p * 10 ^ p)%Z in
  let hi := (lo + 10 ^ p)%Z in
  let lo_ok := bool_decide (number_value lo = Some x) in
  let hi_ok := bool_decide (number_value hi = Some x) in
  match lo_ok, hi_ok with
  | true, false => Some lo
  | false, true => Some hi
  | false, false => None
  | true, true =>
      if (x - lo <? hi - x)%Z then Some lo
      else if (hi - x <? x - lo)%Z then Some hi
      else if Z.even (lo / 10 ^ p) then Some lo else Some hi
  end.

(** Tries [k] significant digits for each [k] of [ks] in turn. *)
Fixpoint shortest_from (x : Z) (digits : nat) (ks : list nat) : Z :=
  match ks with
  | [] => x
  | k :: ks' =>
      match decimal_candidate x (Z.of_nat (digits - k)) with
      | Some v => v
      | None => shortest_from x digits ks'
      end
  end.

(** The decimal with the fewest significant digits whose Number value
    is the double [x]. *)
Definition shortest_decimal (x : Z) : Z :=
  let digits := String.length (pretty x) in
  shortest_from x digits (seq 1 digits).

Fixpoint drop_zeros (l : list ascii) : list ascii :=
  match l with
  | "0"%char :: l' => drop_zeros l'
  | _ => l
  end.

(** [d.ddde+n]: the significant digits of [v] and its exponent. *)
Definition exponent_form (v : Z) : string :=
  let all := pretty v in
  let s := reverse (drop_zeros (reverse (String.list_ascii_of_string all))) in
  match s with
  | [] => all
  | d :: rest =>
      String d (match rest with
                | [] => ""
                | _ => "." +:+ String.string_of_list_ascii rest
                end)
      +:+ "e+" +:+ pretty (Z.of_nat (String.length all) - 1)%Z
  end.

Definition natural_to_string (a : Z) : string :=
  match number_value a with
  | None => "Infinity"
  | Some x =>
      let v := shortest_decimal x in
      if (String.length (pretty v) <=? 21)%nat then pretty v
      else exponent_form v
  end.

(** The text JavaScript gives the number [n]: the shortest digits that
    read back as the same double, written out in full up to 21 digits
    and in exponent form beyond. *)
Definition number_to_string (n : Z) : string :=
  if (n <? 0)%Z then "-" +:+ natural_to_string (- n) else natural_to_string n.

(** Template-literal conversion [`${item}`]. *)
Definition to_string (v : value) : string :=
  match v with
  | JNull => "null"
  | JUndefined => "undefined"
  | JStr s => s
  | JNum n => number_to_string n
  end.

(** JavaScript truthiness of a value. *)
Definition truthy (v : value) : bool :=
  match v with
  | JNull | JUndefined => false
  | JStr s => negb (bool_decide (s = ""))
  | JNum n => negb (bool_decide (n = 0))
  end.

(** ** The [Stack] class *)

(** [items] is the backing array, bottom of the stack first. *)
Record Stack : Type := mkStack { items : list value }.

(** [new Stack()] *)
Definition Stack_new : Stack := mkStack [].

(** Computations that mutate the one stack object they are given. *)
Definition M (A : Type) : Type := Stack -> A * Stack.

Definition ret {A} (a : A) : M A := fun s => (a, s).

Definition bind {A B} (c : M A) (k : A -> M B) : M B :=
  fun s => let (a, s') := c s in k a s'.

Notation "'let!' x ':=' c 'in' k" := (bind c (fun x => k))
  (at level 10, x name, c at level 100, k at level 200,
   format "'[v' 'let!'  x  ':='  c  'in' '/' k ']'").
Notation "'do!' c 'in' k" := (bind c (fun _ => k))
  (at level 10, c at level 100, k at level 200,
   format "'[v' 'do!'  c  'in' '/' k ']'").

(** [this.items.push(item); return this.items.length;] *)
Definition push (item : value) : M nat :=
  fun s => let a := items s ++ [item] in (length a, mkStack a).

(** [Array.prototype.pop] on the backing array: removes and returns the
    last element, [undefined] when the array is empty. *)
Definition array_pop (a : list value) : value * list value :=
  (default JUndefined (last a), take (length a - 1) a).

(** [if (this.items.length === 0) return null; return this.items.pop();] *)
Definition pop : M value :=
  fun s =>
    if Nat.eqb (length (items s)) 0 then (JNull, s)
    else let (v, a) := array_pop (items s) in (v, mkStack a).

(** [if (this.items.length === 0) return null;
     return this.items[this.items.length - 1];] *)
Definition peek : M value :=
  fun s =>
    if Nat.eqb (length (items s)) 0 then (JNull, s)
    else (default JUndefined (items s !! (length (items s) - 1)%nat), s).

(** ** Mock opcode executors *)

Definition OP_DUP : M bool :=
  let! item := peek in
  if strict_eq item JNull then ret false
  else do! push item in ret true.

(** The hash is simulated by the prefix ["hash-"]. *)
Definition hash160 (item : value) : value := JStr ("hash-" +:+ to_string item).

Definition OP_HASH160 : M bool :=
  let! item := pop in
  if strict_eq item JNull then ret false
  else do! push (hash160 item) in ret true.

Definition OP_EQUALVERIFY : M bool :=
  let! b := pop in
  let! a := pop in
  if strict_eq a JNull || strict_eq b JNull then ret false
  else ret (strict_eq a b).

Definition OP_CHECKSIG (publicKey signature : value) : M bool :=
  let! pubKey := pop in
  let! sig := pop in
  if strict_eq pubKey JNull || strict_eq sig JNull then ret false
  else
    let isValid := strict_eq pubKey publicKey && strict_eq sig signature in
    do! push (JNum (if isValid then 1 else 0)) in ret true.

Definition OP_EQUAL : M bool :=
  let! b := pop in
  let! a := pop in
  if strict_eq a JNull || strict_eq b JNull then ret false
  else do! push (JNum (if strict_eq a b then 1 else 0)) in ret true.

(** ** The two demo runs *)

Inductive verdict : Type := VALID | INVALID.

#[global] Instance verdict_eq_dec : EqDecision verdict.
Proof. solve_decision. Defined.

(** [stack.peek() === 1 ? 'VALID' : 'INVALID'] *)
Definition validation_result : M verdict :=
  let! top := peek in
  ret (if strict_eq top (JNum 1) then VALID else INVALID).

(** The P2PKH run
    [<signature> <publicKey> OP_DUP OP_HASH160 <publicKeyHash>
     OP_EQUALVERIFY OP_CHECKSIG].
    [sig] and [pubkey] are the unlocking data pushed first,
    [publicKeyHash] is the literal of the locking script, and
    [publicKey], [signature] are the expected values handed to
    [OP_CHECKSIG].  The script discards every executor's return value
    except [equalResult], which it only prints; they are all collected
    here, in execution order, next to the verdict. *)
Definition p2pkh_script (sig pubkey publicKeyHash publicKey signature : value)
  : M (list bool * verdict) :=
  do! push sig in
  do! push pubkey in
  let! dup_ok := OP_DUP in
  let! hash_ok := OP_HASH160 in
  do! push publicKeyHash in
  let! equalResult := OP_EQUALVERIFY in
  let! checksig_ok := OP_CHECKSIG publicKey signature in
  let! v := validation_result in
  ret ([dup_ok; hash_ok; equalResult; checksig_ok], v).

(** The P2SH run
    [<sig1> <sig2> <redeemScript> OP_HASH160 <redeemScriptHash> OP_EQUAL]. *)
Definition p2sh_script (sig1 sig2 redeemScript redeemScriptHash : value)
  : M (list bool * verdict) :=
  do! push sig1 in
  do! push sig2 in
  do! push redeemScript in
  let! hash_ok := OP_HASH160 in
  do! push redeemScriptHash in
  let! equal_ok := OP_EQUAL in
  let! v := validation_result in
  ret ([hash_ok; equal_ok], v).

(** The constants of the demonstration. *)
Definition signature : value := JStr "valid-signature".
Definition publicKey : value := JStr "actual-public-key".
Definition publicKeyHash : value := JStr "hash-actual-public-key".
Definition sig1 : value := JStr "signature-1".
Definition sig2 : value := JStr "signature-2".
Definition redeemScript : value := JStr "redeem-script".
Definition redeemScriptHash : value := JStr "hash-redeem-script".

(** An invalid signature: 71 zero bytes. *)
Definition zero_signature : value :=
  JStr (String.string_of_list_ascii (replicate 71 Ascii.zero)).

(** Both runs start from [new Stack()]. *)
Definition p2pkh_demo : (list bool * verdict) * Stack :=
  p2pkh_script signature publicKey publicKeyHash publicKey signature Stack_new.

Definition p2sh_demo : (list bool * verdict) * Stack :=
  p2sh_script sig1 sig2 redeemScript redeemScriptHash Stack_new.

(** ** Multi-signature check *)

(** The repository has no [CHECKMULTISIG] executor: its visualisation
    pops the two signatures and pushes [1] ("Assume success").  The
    executor below follows the design text instead. *)

Section Multisig.
(** The injected signature verifier, [verify sig pubkey], with the
    message digest fixed by the enclosing transaction. *)
Variable verify : value -> value -> bool.

(** Modelled from the spec: the matching walk of [CHECKMULTISIG], which
    this repository does not implement.  It walks the public keys left
    to right, consuming the next unmatched signature when it verifies
    against the current key, and succeeds only if every signature has
    been consumed by the time the keys are exhausted. *)
Fixpoint match_signatures (pubkeys sigs : list value) : bool :=
  match sigs with
  | [] => true
  | sg :: sigs' =>
      match pubkeys with
      | [] => false
      | key :: pubkeys' =>
          if verify sg key then match_signatures pubkeys' sigs'
          else match_signatures pubkeys' sigs
      end
  end.

(** Modelled from the spec: popping [k] items for [CHECKMULTISIG], which
    this repository does not implement.  The items come back bottom
    first; a missing item is a stack underflow ([None]). *)
Fixpoint pop_n (k : nat) : M (option (list value)) :=
  match k with
  | O => ret (Some [])
  | S k' =>
      let! x := pop in
      if strict_eq x JNull then ret None
      else
        let! r := pop_n k' in
        ret (match r with Some l => Some (l ++ [x]) | None => None end)
  end.

(** A count item: a non-negative number. *)
Definition as_count (v : value) : option nat :=
  match v with
  | JNum n => if (0 <=? n)%Z then Some (Z.to_nat n) else None
  | _ => None
  end.

(** Modelled from the spec: the [CHECKMULTISIG] executor, which this
    repository does not implement.  It pops [n], the [n] public keys,
    [m], the [m] signatures and one extra dummy element, then pushes
    [1] or [0] according to the matching walk.  A missing item, or a
    count that is not a non-negative number, fails the executor. *)
Definition OP_CHECKMULTISIG : M bool :=
  let! n := pop in
  match as_count n with
  | None => ret false
  | Some n =>
      let! keys := pop_n n in
      match keys with
      | None => ret false
      | Some pubkeys =>
          let! m := pop in
          match as_count m with
          | None => ret false
          | Some m =>
              let! sgs := pop_n m in
              match sgs with
              | None => ret false
              | Some sigs =>
                  let! dummy := pop in
                  if strict_eq dummy JNull then ret false
                  else
                    do! push (JNum (if match_signatures pubkeys sigs
                                    then 1 else 0)) in
                    ret true
              end
          end
      end
  end.

(** The stack that [CHECKMULTISIG] finds after the unlocking data
    [dummy sig_1 .. sig_m] and the pushes [m pubkey_1 .. pubkey_n n] of
    the multisig script. *)
Definition multisig_stack (rest : list value) (dummy : value)
    (sigs pubkeys : list value) : Stack :=
  mkStack (rest ++ [dummy] ++ sigs ++ [JNum (Z.of_nat (length sigs))]
                ++ pubkeys ++ [JNum (Z.of_nat (length pubkeys))]).

(** [sg] verifies against [key]. *)
Definition verifies (sg key : value) : Prop := verify sg key = true.

(** [sg] verifies against [key] and against no other key of [pubkeys]. *)
Definition signed_by (pubkeys : list value) (sg key : value) : Prop :=
  forall k, k ∈ pubkeys -> verify sg k = true <-> k = key.
End Multisig.

(** A mock verifier in the style of the simulated hash: the signature of
    the key [k] is the string ["sig-"] followed by the text of [k]. *)
Definition mock_verify (sg k : value) : bool :=
  strict_eq sg (JStr ("sig-" +:+ to_string k)).

(** Three keys, and the mock signatures of the first and the third. *)
Definition alice : value := JStr "pubkey-alice".
Definition bob : value := JStr "pubkey-bob".
Definition charlie : value := JStr "pubkey-charlie".
Definition sig_alice : value := JStr "sig-pubkey-alice".
Definition sig_charlie : value := JStr "sig-pubkey-charlie".

(** A stack item proper: anything but the failure value [null]. *)
Definition is_item (v : value) : Prop := v <> JNull.

(** ** [Stack.print] *)

(** The text [Array.prototype.join] gives an element: the empty string
    for [null] and [undefined], the string conversion otherwise. *)
Definition join_text (v : value) : string :=
  match v with
  | JNull | JUndefined => ""
  | _ => to_string v
  end.

(** [a.join(sep)] *)
Fixpoint join (sep : string) (a : list value) : string :=
  match a with
  | [] => ""
  | [x] => join_text x
  | x :: rest => join_text x +:+ sep +:+ join sep rest
  end.

(** [return '[' + this.items.join(', ') + ']';] *)
Definition print : M string :=
  fun s => ("[" +:+ join ", " (items s) +:+ "]", s).

(** ** Strings: [padEnd], [repeat], [substring] *)

(** [c.repeat(k)] for a one-character string [c]. *)
Fixpoint repeat_char (c : ascii) (k : nat) : string :=
  match k with
  | O => ""
  | S k' => String c (repeat_char c k')
  end.

(** [s.padEnd(n)]: [s] followed by spaces up to the length [n]; [s]
    itself when it is already that long.  Lengths are counted in
    characters of the string, which is JavaScript's [length] for the
    ASCII texts of the replays. *)
Definition padEnd (s : string) (n : nat) : string :=
  s +:+ repeat_char " "%char (n - String.length s).

(** The line feed that opens two of the console lines. *)
Definition nl : string := String (Ascii.ascii_of_nat 10) "".

(** ** The visualisation: [VisualStack] and the four replays *)

Module Visual.

(** [history] holds a copy of [items] per recorded operation,
    [operations] the label of each. *)
Record VisualStack : Type := mkVisualStack {
  items : list value;
  name : string;
  history : list (list value);
  operations : list string
}.

(** [new VisualStack(name)] *)
Definition new (name : string) : VisualStack := mkVisualStack [] name [] [].

Definition M (A : Type) : Type := VisualStack -> A * VisualStack.

Definition ret {A} (a : A) : M A := fun vs => (a, vs).

Definition bind {A B} (c : M A) (k : A -> M B) : M B :=
  fun vs => let (a, vs') := c vs in k a vs'.

#[local] Notation "'let*' x ':=' c 'in' k" := (bind c (fun x => k))
  (at level 10, x name, c at level 100, k at level 200, only parsing).
#[local] Notation "'do*' c 'in' k" := (bind c (fun _ => k))
  (at level 10, c at level 100, k at level 200, only parsing).

(** Reads [this.items]. *)
Definition get_items : M (list value) := fun vs => (items vs, vs).

(** [this.items.push(item)] *)
Definition items_push (item : value) : M unit :=
  fun vs =>
    (tt, mkVisualStack (items vs ++ [item]) (name vs) (history vs)
           (operations vs)).

(** [this.items.pop()] *)
Definition items_pop : M value :=
  fun vs =>
    let (v, a) := array_pop (items vs) in
    (v, mkVisualStack a (name vs) (history vs) (operations vs)).

(** [this.operations.push(operation);
     this.history.push([...this.items]);] *)
Definition recordState (operation : string) : M unit :=
  fun vs =>
    (tt, mkVisualStack (items vs) (name vs) (history vs ++ [items vs])
           (operations vs ++ [operation])).

Definition push (item : value) : M nat :=
  do* items_push item in
  do* recordState ("Push: " +:+ to_string item) in
  let* a := get_items in
  ret (length a).

Definition pop : M value :=
  let* a := get_items in
  if Nat.eqb (length a) 0 then ret JNull
  else
    let* item := items_pop in
    do* recordState ("Pop: " +:+ to_string item) in
    ret item.

(** [stack.items[stack.items.length - 1]], read without a length test:
    [undefined] on an empty array. *)
Definition top_item : M value :=
  fun vs => (default JUndefined (items vs !! (length (items vs) - 1)%nat), vs).

(** The loop that finds the longest item text of all snapshots. *)
Definition max_item_length (history : list (list value)) : nat :=
  foldl (fun maxLength state =>
           foldl (fun maxLength item =>
                    if (maxLength <? String.length (to_string item))%nat
                    then String.length (to_string item) else maxLength)
                 maxLength state)
        0%nat history.

(** One snapshot as a row of cells. *)
Definition stackVisual (maxLength : nat) (state : list value) : string :=
  if (0 <? length state)%nat then
    foldl (fun acc item =>
             acc +:+ " " +:+ padEnd (to_string item) maxLength +:+ "|")
          "|" state
  else "|".

(** The rows of the table, operation [i] next to snapshot [i].  Reading
    [history[i]] past the end gives [undefined], on which [state.length]
    throws: [None]. *)
Fixpoint render_rows (maxLength : nat) (operations : list string)
    (history : list (list value)) : option (list string) :=
  match operations with
  | [] => Some []
  | operation :: operations' =>
      match history with
      | [] => None
      | state :: history' =>
          match render_rows maxLength operations' history' with
          | Some rows =>
              Some ((padEnd operation 30 +:+ " " +:+ stackVisual maxLength state)
                      :: rows)
          | None => None
          end
      end
  end.

(** [renderHistory()]: the console lines, one per [console.log] call, or
    [None] when the method throws. *)
Definition renderHistory (vs : VisualStack) : option (list string) :=
  let maxLength := (max_item_length (history vs) + 2)%nat in
  match render_rows maxLength (operations vs) (history vs) with
  | Some rows =>
      Some ([nl +:+ "===== " +:+ name vs +:+ " Stack Execution =====";
             nl +:+ "Operation" +:+ padEnd "" 20 +:+ " Stack (bottom to top)";
             repeat_char "-"%char (30 + maxLength);
             "Initial" +:+ padEnd "" 23 +:+ " |"]
              ++ rows ++ [repeat_char "-"%char (30 + maxLength)])
  | None => None
  end.

(** The label of the [OP_EQUALVERIFY] step. *)
Definition equalverify_label (hash1 hash2 : value) : string :=
  "OP_EQUALVERIFY: "
  +:+ (if strict_eq hash1 hash2 then "Equal, continue" else "Not equal, fail").

(** The stack operations shared by [visualizeP2PKH] and
    [visualizeP2WPKH], from the two pushes of the unlocking data to the
    final [push(1)]. *)
Definition p2pkh_steps (signature publicKey : value) (publicKeyHash : string)
  : M unit :=
  do* push signature in
  do* push publicKey in
  let* dupItem := top_item in
  do* push dupItem in
  do* pop in
  do* push (JStr (String.substring 0 6 publicKeyHash)) in
  do* push (JStr publicKeyHash) in
  let* hash1 := pop in
  let* hash2 := pop in
  do* recordState (equalverify_label hash1 hash2) in
  let* pk := pop in
  let* sig := pop in
  do* push (JNum 1) in
  ret tt.

(** [visualizeP2PKH], with its mock data as parameters; the value is the
    stack object handed to [renderHistory]. *)
Definition visualizeP2PKH (signature publicKey : value) (publicKeyHash : string)
  : VisualStack :=
  snd (p2pkh_steps signature publicKey publicKeyHash
         (new "P2PKH (Pay to Public Key Hash)")).

(** [visualizeP2WPKH], with its mock data as parameters. *)
Definition visualizeP2WPKH (signature publicKey : value) (publicKeyHash : string)
  : VisualStack :=
  snd ((do* recordState "Execute witness program (validation of version 0)" in
        p2pkh_steps signature publicKey publicKeyHash)
         (new "P2WPKH (Pay to Witness Public Key Hash)")).

(** [visualizeP2SH], with its mock data as parameters. *)
Definition visualizeP2SH (sig1 sig2 redeemScript redeemScriptHash : value)
  : VisualStack :=
  snd ((do* push sig1 in
        do* push sig2 in
        do* push redeemScript in
        let* script := pop in
        do* push (JStr "RSHash") in
        do* push redeemScriptHash in
        let* hash1 := pop in
        let* hash2 := pop in
        do* push (JNum (if strict_eq hash1 hash2 then 1 else 0)) in
        let* top := top_item in
        if strict_eq top (JNum 1) then
          do* recordState "OP_EQUAL: Success, now execute redeem script" in
          do* pop in
          do* recordState "Execute redeem script (2-of-2 multisig)" in
          let* s2 := pop in
          let* s1 := pop in
          do* push (JNum 1) in
          ret tt
        else
          recordState "OP_EQUAL: Failed, script invalid")
         (new "P2SH (Pay to Script Hash)")).


(** The stack of [bitcoin-script-manual.js] that a [VisualStack] carries. *)
Definition erase (vs : VisualStack) : Stack := mkStack (items vs).

(** The states a [VisualStack] reaches through its methods. *)
Inductive reachable : VisualStack -> Prop :=
  | reach_new name : reachable (new name)
  | reach_push item vs : reachable vs -> reachable (snd (push item vs))
  | reach_pop vs : reachable vs -> reachable (snd (pop vs))
  | reach_record operation vs :
      reachable vs -> reachable (snd (recordState operation vs)).

End Visual.

(** ** Number texts *)

(** Small integers print in decimal; from [2 ^ 53] on only the shortest
    digits that read back as the same double are printed, and from
    [10 ^ 21] on the exponent form is used. *)
Example number_to_string_samples :
  map number_to_string
    [0; 1; -1; 1000; 9007199254740991; 2 ^ 63; 10 ^ 21 - 1; 10 ^ 21;
     - 10 ^ 21; 2 ^ 70; 123456789012345678901234567890; 2 ^ 1024]%Z
  = ["0"; "1"; "-1"; "1000"; "9007199254740991"; "9223372036854776000";
     "1e+21"; "1e+21"; "-1e+21"; "1.1805916207174113e+21";
     "1.2345678901234568e+29"; "Infinity"].
Proof. vm_compute. reflexivity. Qed.

Example hash160_large_number :
  hash160 (JNum (10 ^ 21)) = JStr "hash-1e+21".
Proof. vm_compute. reflexivity. Qed.

(** ** Basic facts about the [Stack] methods *)

Section StackFacts.
Implicit Types (l rest : list value) (x a b : value) (s : Stack).

Lemma push_spec x l :
  push x (mkStack l) = (length (l ++ [x]), mkStack (l ++ [x])).
Proof. reflexivity. Qed.

Lemma pop_nil : pop (mkStack []) = (JNull, mkStack []).
Proof. reflexivity. Qed.

Lemma pop_snoc l x : pop (mkStack (l ++ [x])) = (x, mkStack l).
Proof.
  unfold pop, array_pop; cbn [items].
  rewrite length_app, Nat.add_1_r; cbn [Nat.eqb].
  rewrite last_snoc; cbn [default].
  replace (S (length l) - 1)%nat with (length l) by lia.
  by rewrite take_app_length.
Qed.

Lemma pop_single x : pop (mkStack [x]) = (x, mkStack []).
Proof. exact (pop_snoc [] x). Qed.

Lemma peek_nil : peek (mkStack []) = (JNull, mkStack []).
Proof. reflexivity. Qed.

Lemma peek_snoc l x : peek (mkStack (l ++ [x])) = (x, mkStack (l ++ [x])).
Proof.
  unfold peek; cbn [items].
  rewrite length_app, Nat.add_1_r; cbn [Nat.eqb].
  replace (S (length l) - 1)%nat with (length l) by lia.
  by rewrite list_lookup_middle.
Qed.

Lemma snoc2 l a b : l ++ [a; b] = (l ++ [a]) ++ [b].
Proof. by rewrite <- (assoc_L (++)). Qed.

Lemma pop_snoc2 rest a b :
  pop (mkStack (rest ++ [a; b])) = (b, mkStack (rest ++ [a])).
Proof. by rewrite snoc2, pop_snoc. Qed.

(** An array is empty, a singleton, or ends in two items. *)
Lemma array_cases l :
  l = [] \/ (exists x, l = [x]) \/ (exists rest a b, l = rest ++ [a; b]).
Proof.
  destruct l as [|y l'] using rev_ind; [by left | right].
  destruct l' as [|z l''] using rev_ind; [left; by exists y | right].
  exists l'', z, y. by rewrite snoc2.
Qed.

Lemma strict_eq_refl x : strict_eq x x = true.
Proof. unfold strict_eq. by rewrite bool_decide_eq_true. Qed.

Lemma strict_eq_sym a b : strict_eq a b = strict_eq b a.
Proof. unfold strict_eq. apply bool_decide_ext. split; congruence. Qed.

Lemma strict_eq_null x : x <> JNull -> strict_eq x JNull = false.
Proof. intros H. unfold strict_eq. by rewrite bool_decide_eq_false. Qed.
End StackFacts.

(** Unfolds one executor applied to a stack whose top items are known. *)
Ltac step_stack :=
  unfold bind, ret;
  repeat first
    [ rewrite pop_snoc2 | rewrite pop_snoc | rewrite pop_single
    | rewrite pop_nil
    | rewrite peek_snoc | rewrite peek_nil | rewrite push_spec ].

(** ** Executor equations *)

Section ExecutorFacts.
Implicit Types (l rest : list value) (x a b : value) (s : Stack).

Lemma OP_DUP_top rest x :
  x <> JNull ->
  OP_DUP (mkStack (rest ++ [x])) = (true, mkStack (rest ++ [x; x])).
Proof.
  intros Hx. unfold OP_DUP. step_stack.
  rewrite (strict_eq_null _ Hx). step_stack.
  by rewrite snoc2.
Qed.

Lemma OP_HASH160_top rest x :
  x <> JNull ->
  OP_HASH160 (mkStack (rest ++ [x])) = (true, mkStack (rest ++ [hash160 x])).
Proof.
  intros Hx. unfold OP_HASH160. step_stack.
  rewrite (strict_eq_null _ Hx). by step_stack.
Qed.

Lemma OP_EQUAL_top rest a b :
  a <> JNull -> b <> JNull ->
  OP_EQUAL (mkStack (rest ++ [a; b]))
  = (true, mkStack (rest ++ [JNum (if strict_eq a b then 1 else 0)])).
Proof.
  intros Ha Hb. unfold OP_EQUAL. step_stack.
  rewrite (strict_eq_null _ Ha), (strict_eq_null _ Hb); cbn [orb].
  by step_stack.
Qed.

Lemma OP_EQUALVERIFY_top rest a b :
  a <> JNull -> b <> JNull ->
  OP_EQUALVERIFY (mkStack (rest ++ [a; b])) = (strict_eq a b, mkStack rest).
Proof.
  intros Ha Hb. unfold OP_EQUALVERIFY. step_stack.
  by rewrite (strict_eq_null _ Ha), (strict_eq_null _ Hb).
Qed.

Lemma OP_CHECKSIG_top rest sig pubKey publicKey signature :
  sig <> JNull -> pubKey <> JNull ->
  OP_CHECKSIG publicKey signature (mkStack (rest ++ [sig; pubKey]))
  = (true,
     mkStack (rest ++ [JNum (if strict_eq pubKey publicKey
                                && strict_eq sig signature
                             then 1 else 0)])).
Proof.
  intros Hs Hp. unfold OP_CHECKSIG. step_stack.
  rewrite (strict_eq_null _ Hs), (strict_eq_null _ Hp); cbn [orb].
  by step_stack.
Qed.

(** [OP_EQUAL] on any two top items, [null] included. *)
Lemma OP_EQUAL_top_any rest a b :
  OP_EQUAL (mkStack (rest ++ [a; b]))
  = if strict_eq a JNull || strict_eq b JNull then (false, mkStack rest)
    else (true, mkStack (rest ++ [JNum (if strict_eq a b then 1 else 0)])).
Proof.
  unfold OP_EQUAL. step_stack.
  destruct (strict_eq a JNull || strict_eq b JNull); by step_stack.
Qed.

(** [OP_EQUALVERIFY] on any two top items, [null] included. *)
Lemma OP_EQUALVERIFY_top_any rest a b :
  OP_EQUALVERIFY (mkStack (rest ++ [a; b]))
  = (if strict_eq a JNull || strict_eq b JNull then false else strict_eq a b,
     mkStack rest).
Proof.
  unfold OP_EQUALVERIFY. step_stack.
  by destruct (strict_eq a JNull || strict_eq b JNull).
Qed.

(** With a single item on the stack, the two-operand executors pop it,
    find the second operand missing and report failure. *)
Lemma OP_EQUAL_single x : OP_EQUAL (mkStack [x]) = (false, mkStack []).
Proof. unfold OP_EQUAL. step_stack. by rewrite strict_eq_refl. Qed.

Lemma OP_EQUALVERIFY_single x :
  OP_EQUALVERIFY (mkStack [x]) = (false, mkStack []).
Proof. unfold OP_EQUALVERIFY. step_stack. by rewrite strict_eq_refl. Qed.

Lemma OP_CHECKSIG_single x publicKey signature :
  OP_CHECKSIG publicKey signature (mkStack [x]) = (false, mkStack []).
Proof.
  unfold OP_CHECKSIG. step_stack. by rewrite strict_eq_refl, orb_true_r.
Qed.

(** The top two items of an array of proper items. *)
Lemma items_top2 rest a b :
  Forall is_item (rest ++ [a; b]) -> a <> JNull /\ b <> JNull.
Proof.
  intros H. apply Forall_app in H as [_ H].
  apply Forall_cons in H as [Ha H]. by apply Forall_cons in H as [Hb _].
Qed.

(** Every executor reports failure when it finds too few items. *)
Lemma underflow_reported s publicKey signature :
  ((length (items s) < 1)%nat ->
   fst (OP_DUP s) = false /\ fst (OP_HASH160 s) = false)
  /\ ((length (items s) < 2)%nat ->
      fst (OP_EQUAL s) = false /\ fst (OP_EQUALVERIFY s) = false
      /\ fst (OP_CHECKSIG publicKey signature s) = false).
Proof.
  destruct s as [l]; cbn [items].
  destruct (array_cases l) as [-> | [[x ->] | (rest & a & b & ->)]].
  - by repeat split.
  - split; [cbn; lia |]. intros _.
    by rewrite OP_EQUAL_single, OP_EQUALVERIFY_single, OP_CHECKSIG_single.
  - rewrite length_app; cbn [length]. split; lia.
Qed.

End ExecutorFacts.

(** The executors on any top items, [null] included. *)

Section ExecutorsAnyStack.
Implicit Types (l rest : list value) (x a b : value) (s : Stack).

Lemma OP_DUP_top_any rest x :
  OP_DUP (mkStack (rest ++ [x]))
  = if strict_eq x JNull then (false, mkStack (rest ++ [x]))
    else (true, mkStack (rest ++ [x; x])).
Proof.
  unfold OP_DUP. step_stack.
  destruct (strict_eq x JNull); step_stack; [done | by rewrite snoc2].
Qed.

Lemma OP_HASH160_top_any rest x :
  OP_HASH160 (mkStack (rest ++ [x]))
  = if strict_eq x JNull then (false, mkStack rest)
    else (true, mkStack (rest ++ [hash160 x])).
Proof.
  unfold OP_HASH160. step_stack. destruct (strict_eq x JNull); by step_stack.
Qed.

Lemma OP_CHECKSIG_top_any rest a b publicKey signature :
  OP_CHECKSIG publicKey signature (mkStack (rest ++ [a; b]))
  = if strict_eq b JNull || strict_eq a JNull then (false, mkStack rest)
    else (true,
          mkStack (rest ++ [JNum (if strict_eq b publicKey
                                     && strict_eq a signature
                                  then 1 else 0)])).
Proof.
  unfold OP_CHECKSIG. step_stack.
  destruct (strict_eq b JNull || strict_eq a JNull); by step_stack.
Qed.

Lemma strict_eq_null_iff x : strict_eq x JNull = true <-> x = JNull.
Proof. unfold strict_eq. apply bool_decide_eq_true. Qed.

Lemma take_snoc1 rest x : take (length (rest ++ [x]) - 1) (rest ++ [x]) = rest.
Proof.
  rewrite length_app, Nat.add_1_r.
  replace (S (length rest) - 1)%nat with (length rest) by lia.
  apply take_app_length.
Qed.

Lemma take_snoc2 rest a b :
  take (length (rest ++ [a; b]) - 2) (rest ++ [a; b]) = rest.
Proof.
  rewrite length_app. cbn [length].
  replace (length rest + 2 - 2)%nat with (length rest) by lia.
  apply take_app_length.
Qed.
End ExecutorsAnyStack.

(** ** Claims about the [Stack] class and the executors *)

(** C10.  [pop] and [peek] on an empty stack return the failure value
    [null] (they are defined there) and leave the stack empty. *)
Theorem pop_peek_empty (s : Stack) :
  items s = [] ->
  pop s = (JNull, s) /\ peek s = (JNull, s)
  /\ items (snd (pop s)) = [] /\ items (snd (peek s)) = [].
Proof.
  destruct s as [l]; cbn [items]; intros ->.
  rewrite pop_nil, peek_nil. by repeat split.
Qed.

Lemma pop_peek_empty_witness :
  items Stack_new = []
  /\ pop Stack_new = (JNull, Stack_new) /\ peek Stack_new = (JNull, Stack_new).
Proof.
  split; [reflexivity |].
  split; apply (pop_peek_empty Stack_new); reflexivity.
Defined.

(** C7.  On a stack holding exactly one element, [OP_EQUAL],
    [OP_EQUALVERIFY] and [OP_CHECKSIG] report failure, and the lone
    element has been popped: the stack is left empty, not unchanged. *)
Theorem single_item_underflow_pops (x publicKey signature : value) :
  OP_EQUAL (mkStack [x]) = (false, mkStack [])
  /\ OP_EQUALVERIFY (mkStack [x]) = (false, mkStack [])
  /\ OP_CHECKSIG publicKey signature (mkStack [x]) = (false, mkStack [])
  /\ mkStack [x] <> mkStack [].
Proof.
  split; [apply OP_EQUAL_single |].
  split; [apply OP_EQUALVERIFY_single |].
  split; [apply OP_CHECKSIG_single | discriminate].
Qed.

(** C8 fails as stated: with three items on the stack, one of the top
    two being [null], [OP_EQUAL] fails although two items are present. *)
Lemma OP_EQUAL_fails_on_null_item :
  ~ (fst (OP_EQUAL (mkStack [sig1; JNull; redeemScriptHash])) = false ->
     (length (items (mkStack [sig1; JNull; redeemScriptHash])) < 2)%nat).
Proof. intros H. specialize (H eq_refl). cbn in H. lia. Qed.

(** C8, amended.  On every stack whose top two items are not [null],
    [OP_EQUAL] pops them and pushes [1] if they are equal and [0]
    otherwise, whatever their content.  It fails exactly when fewer than
    two items are present or one of the top two items is [null]. *)
Theorem OP_EQUAL_cases (s : Stack) :
  (forall rest a b,
      items s = rest ++ [a; b] -> is_item a -> is_item b ->
      OP_EQUAL s
      = (true, mkStack (rest ++ [JNum (if decide (a = b) then 1 else 0)])))
  /\ (fst (OP_EQUAL s) = false
      <-> (length (items s) < 2)%nat
          \/ exists rest a b,
               items s = rest ++ [a; b] /\ (a = JNull \/ b = JNull)).
Proof.
  destruct s as [l]; cbn [items]. split.
  - intros rest a b -> Ha Hb. rewrite OP_EQUAL_top by assumption.
    unfold strict_eq. by case_bool_decide; case_decide.
  - destruct (array_cases l) as [-> | [[x ->] | (rest & a & b & ->)]].
    + cbn. split; [intros _; left; lia | done].
    + rewrite OP_EQUAL_single. cbn. split; [intros _; left; lia | done].
    + rewrite OP_EQUAL_top_any, length_app. cbn [length].
      destruct (strict_eq a JNull || strict_eq b JNull) eqn:Hnull; cbn [fst].
      * split; [intros _; right | done]. exists rest, a, b. split; [done |].
        apply orb_true_iff in Hnull. by rewrite !strict_eq_null_iff in Hnull.
      * split; [discriminate |]. intros [Hlen | (rest' & a' & b' & Heq & Hn)].
        { lia. }
        rewrite !snoc2 in Heq.
        apply app_inj_tail in Heq as [Heq <-].
        apply app_inj_tail in Heq as [_ <-].
        apply orb_false_iff in Hnull as [Ha Hb].
        destruct Hn as [-> | ->]; by rewrite strict_eq_refl in *.
Qed.

Lemma OP_EQUAL_cases_witness :
  OP_EQUAL (mkStack [sig1; hash160 redeemScript; redeemScriptHash])
  = (true, mkStack [sig1; JNum 1])
  /\ OP_EQUAL (mkStack [sig1; JStr "another-hash"; redeemScriptHash])
     = (true, mkStack [sig1; JNum 0]).
Proof.
  split.
  - apply (proj1 (OP_EQUAL_cases
                      (mkStack [sig1; hash160 redeemScript; redeemScriptHash]))
             [sig1] (hash160 redeemScript) redeemScriptHash eq_refl);
      discriminate.
  - apply (proj1 (OP_EQUAL_cases
                      (mkStack [sig1; JStr "another-hash"; redeemScriptHash]))
             [sig1] (JStr "another-hash") redeemScriptHash eq_refl);
      discriminate.
Defined.

(** C4 fails as stated: with a [null] signature under the public key,
    two items are present and yet [OP_CHECKSIG] pushes neither [1] nor
    [0]; it reports failure. *)
Lemma OP_CHECKSIG_null_signature_fails :
  ~ (exists n,
        OP_CHECKSIG publicKey signature (mkStack [JNull; publicKey])
        = (true, mkStack [JNum n])).
Proof. intros [n H]. vm_compute in H. discriminate H. Qed.

(** C4, amended.  On every stack whose top two items are not [null],
    [OP_CHECKSIG] pops the public key, then the signature, and pushes [1]
    if the pair verifies (here: equals the expected pair) and [0]
    otherwise, reporting success either way: a pair that does not verify
    makes it push [0], never fail.  When one of the top two items is
    [null] it reports failure, having popped both and pushed nothing. *)
Theorem OP_CHECKSIG_cases (rest : list value) (sig pubKey publicKey signature : value) :
  (is_item sig -> is_item pubKey ->
   pop (mkStack (rest ++ [sig; pubKey])) = (pubKey, mkStack (rest ++ [sig]))
   /\ pop (mkStack (rest ++ [sig])) = (sig, mkStack rest)
   /\ OP_CHECKSIG publicKey signature (mkStack (rest ++ [sig; pubKey]))
      = (true,
         mkStack (rest ++ [JNum (if decide (pubKey = publicKey /\ sig = signature)
                                 then 1 else 0)]))
   /\ (~ (pubKey = publicKey /\ sig = signature) ->
       OP_CHECKSIG publicKey signature (mkStack (rest ++ [sig; pubKey]))
       = (true, mkStack (rest ++ [JNum 0]))))
  /\ (sig = JNull \/ pubKey = JNull ->
      OP_CHECKSIG publicKey signature (mkStack (rest ++ [sig; pubKey]))
      = (false, mkStack rest)).
Proof.
  split.
  - intros Hs Hp.
    assert (Hv : strict_eq pubKey publicKey && strict_eq sig signature
                 = bool_decide (pubKey = publicKey /\ sig = signature)).
    { unfold strict_eq. by rewrite bool_decide_and. }
    split; [apply pop_snoc2 |]. split; [apply pop_snoc |].
    rewrite OP_CHECKSIG_top, Hv by assumption.
    split.
    + by case_bool_decide; case_decide.
    + intros Hn. by rewrite bool_decide_eq_false_2.
  - intros Hnull. rewrite OP_CHECKSIG_top_any.
    assert (Hb : strict_eq pubKey JNull || strict_eq sig JNull = true).
    { apply orb_true_iff. rewrite !strict_eq_null_iff. tauto. }
    by rewrite Hb.
Qed.

Lemma OP_CHECKSIG_cases_witness :
  OP_CHECKSIG publicKey signature (mkStack [signature; publicKey])
  = (true, mkStack [JNum 1])
  /\ OP_CHECKSIG publicKey signature (mkStack [JStr "malformed"; publicKey])
     = (true, mkStack [JNum 0])
  /\ OP_CHECKSIG publicKey signature (mkStack [JNull; publicKey])
     = (false, mkStack []).
Proof.
  split; [| split].
  - apply (OP_CHECKSIG_cases [] signature publicKey publicKey signature);
      discriminate.
  - apply (OP_CHECKSIG_cases [] (JStr "malformed") publicKey publicKey signature);
      [discriminate | discriminate | intros [_ H]; discriminate H].
  - apply (OP_CHECKSIG_cases [] JNull publicKey publicKey signature). by left.
Defined.

(** C5 fails as stated: the value that [OP_HASH160] pushes is not the
    20-byte output of any hash function.  On the stack holding
    ["redeem-script"] it pushes the 18-character ["hash-redeem-script"]. *)
Lemma OP_HASH160_not_20_bytes :
  ~ (exists h : value -> string,
        (forall v, String.length (h v) = 20%nat)
        /\ OP_HASH160 (mkStack [redeemScript])
           = (true, mkStack [JStr (h redeemScript)])).
Proof.
  intros (h & Hlen & Heq).
  assert (Hrun : OP_HASH160 (mkStack [redeemScript])
                 = (true, mkStack [JStr "hash-redeem-script"]))
    by reflexivity.
  rewrite Hrun in Heq. injection Heq as Heq.
  specialize (Hlen redeemScript). rewrite <- Heq in Hlen.
  discriminate Hlen.
Qed.

(** C5, amended.  On every stack whose top item is not [null],
    [OP_HASH160] pops the top and pushes the string ["hash-"] followed by
    the text of the popped item: a simulated hash, five characters longer
    than that text.  When the top item is [null] it reports failure,
    having removed the [null] and pushed nothing; on an empty stack it
    reports failure and leaves the stack empty. *)
Theorem OP_HASH160_cases (s : Stack) :
  (forall rest x,
      items s = rest ++ [x] -> is_item x ->
      OP_HASH160 s = (true, mkStack (rest ++ [JStr ("hash-" +:+ to_string x)]))
      /\ String.length ("hash-" +:+ to_string x)
         = (5 + String.length (to_string x))%nat)
  /\ (forall rest,
         items s = rest ++ [JNull] -> OP_HASH160 s = (false, mkStack rest))
  /\ (items s = [] -> OP_HASH160 s = (false, s)).
Proof.
  destruct s as [l]; cbn [items]. split; [| split].
  - intros rest x -> Hx. split; [by apply OP_HASH160_top | reflexivity].
  - intros rest ->. by rewrite OP_HASH160_top_any, strict_eq_refl.
  - by intros ->.
Qed.

Lemma OP_HASH160_cases_witness :
  (OP_HASH160 (mkStack [sig1; sig2; redeemScript])
   = (true, mkStack [sig1; sig2; redeemScriptHash])
   /\ String.length "hash-redeem-script" = 18%nat)
  /\ OP_HASH160 (mkStack [sig1; JNull]) = (false, mkStack [sig1])
  /\ OP_HASH160 Stack_new = (false, Stack_new).
Proof.
  split; [| split].
  - apply (proj1 (OP_HASH160_cases (mkStack [sig1; sig2; redeemScript]))
             [sig1; sig2] redeemScript); [reflexivity | discriminate].
  - apply (proj1 (proj2 (OP_HASH160_cases (mkStack [sig1; JNull]))) [sig1]).
    reflexivity.
  - apply (proj2 (proj2 (OP_HASH160_cases Stack_new))). reflexivity.
Defined.

(** ** The demo runs *)

Lemma validation_result_top (l : list value) (x : value) :
  validation_result (mkStack (l ++ [x]))
  = (if strict_eq x (JNum 1) then VALID else INVALID, mkStack (l ++ [x])).
Proof. unfold validation_result. by step_stack. Qed.

Lemma validation_result_nil :
  validation_result (mkStack []) = (INVALID, mkStack []).
Proof. reflexivity. Qed.

(** The whole P2PKH run on proper items, from any initial stack. *)
Lemma p2pkh_script_run (l : list value) (sig pubkey h publicKey signature : value) :
  is_item sig -> is_item pubkey -> is_item h ->
  p2pkh_script sig pubkey h publicKey signature (mkStack l)
  = let ok := strict_eq pubkey publicKey && strict_eq sig signature in
    ([true; true; strict_eq (hash160 pubkey) h; true],
     if ok then VALID else INVALID,
     mkStack (l ++ [JNum (if ok then 1 else 0)])).
Proof.
  intros Hs Hp Hh.
  unfold p2pkh_script, bind.
  rewrite !push_spec.
  rewrite OP_DUP_top, snoc2 by assumption.
  rewrite OP_HASH160_top, push_spec, <- snoc2 by assumption.
  rewrite OP_EQUALVERIFY_top, <- snoc2 by (assumption || discriminate).
  rewrite OP_CHECKSIG_top by assumption.
  rewrite validation_result_top. unfold ret. cbv zeta.
  by destruct (strict_eq pubkey publicKey && strict_eq sig signature).
Qed.

(** The whole P2SH run on proper items, from any initial stack. *)
Lemma p2sh_script_run (l : list value) (sig1 sig2 redeemScript redeemScriptHash : value) :
  is_item redeemScript -> is_item redeemScriptHash ->
  p2sh_script sig1 sig2 redeemScript redeemScriptHash (mkStack l)
  = let ok := strict_eq (hash160 redeemScript) redeemScriptHash in
    ([true; true],
     if ok then VALID else INVALID,
     mkStack (l ++ [sig1; sig2; JNum (if ok then 1 else 0)])).
Proof.
  intros Hr Hh.
  unfold p2sh_script, bind.
  rewrite !push_spec.
  rewrite OP_HASH160_top, push_spec, <- snoc2 by assumption.
  rewrite OP_EQUAL_top by (assumption || discriminate).
  rewrite validation_result_top. unfold ret. cbv zeta.
  rewrite <- (assoc_L (++) l [sig1] [sig2]), <- (assoc_L (++) l).
  by destruct (strict_eq (hash160 redeemScript) redeemScriptHash).
Qed.

(** C2.  With [pubkeyHash = HASH160(pubkey)], the P2PKH run on unlocking
    data [sig, pubkey], where [sig] is the signature that verifies,
    leaves the stack [1] with verdict [VALID]; the same run with [sig]
    replaced by a signature that does not verify ends with verdict
    [INVALID] because [OP_CHECKSIG] pushed [0], while every executor,
    [OP_CHECKSIG] included, reported success (no stack underflow). *)
Theorem p2pkh_valid_and_invalid_signature (sig pubkey bad : value) :
  is_item sig -> is_item pubkey -> is_item bad -> bad <> sig ->
  p2pkh_script sig pubkey (hash160 pubkey) pubkey sig Stack_new
  = ([true; true; true; true], VALID, mkStack [JNum 1])
  /\ p2pkh_script bad pubkey (hash160 pubkey) pubkey sig Stack_new
     = ([true; true; true; true], INVALID, mkStack [JNum 0]).
Proof.
  intros Hs Hp Hb Hne. unfold Stack_new.
  rewrite !p2pkh_script_run by (assumption || discriminate).
  cbv zeta. rewrite !strict_eq_refl. cbn [andb app].
  assert (Hbad : strict_eq bad sig = false)
    by (unfold strict_eq; by rewrite bool_decide_eq_false).
  by rewrite Hbad.
Qed.

Lemma p2pkh_valid_and_invalid_signature_witness :
  publicKeyHash = hash160 publicKey
  /\ p2pkh_demo = ([true; true; true; true], VALID, mkStack [JNum 1])
  /\ p2pkh_script zero_signature publicKey publicKeyHash publicKey signature
       Stack_new
     = ([true; true; true; true], INVALID, mkStack [JNum 0]).
Proof.
  split; [reflexivity |].
  apply (p2pkh_valid_and_invalid_signature signature publicKey zero_signature);
    discriminate.
Defined.

(** C3 fails as stated: on the two-item stack [["x", null]]
    [OP_EQUALVERIFY] returns [false], yet [OP_EQUAL] on the same stack
    pushes no falsy value; it fails and pushes nothing. *)
Lemma EQUALVERIFY_false_without_falsy_EQUAL :
  ~ (fst (OP_EQUALVERIFY (mkStack [JStr "x"; JNull])) = false
     <-> exists s', OP_EQUAL (mkStack [JStr "x"; JNull]) = (true, s')
                    /\ truthy (fst (peek s')) = false).
Proof.
  intros [H _]. destruct (H eq_refl) as (s' & Heq & _).
  vm_compute in Heq. discriminate Heq.
Qed.

(** C3, amended.  [OP_EQUAL] gives the same result on top items [(a, b)]
    and [(b, a)], whatever they are.  On a stack whose top two items are
    not [null], [OP_EQUALVERIFY] returns [false] exactly when [OP_EQUAL]
    on the same stack succeeds and pushes a falsy value.  When one of the
    top two items is [null], both return [false], having popped the two
    items and pushed nothing.  A [false] from [OP_EQUALVERIFY] does not
    stop the P2PKH run: with a hash literal that does not match,
    [OP_CHECKSIG] is still executed and decides the verdict. *)
Theorem EQUAL_symmetric_EQUALVERIFY_reports (rest : list value) (a b : value) :
  OP_EQUAL (mkStack (rest ++ [a; b])) = OP_EQUAL (mkStack (rest ++ [b; a]))
  /\ (is_item a -> is_item b ->
      (fst (OP_EQUALVERIFY (mkStack (rest ++ [a; b]))) = false
       <-> exists s', OP_EQUAL (mkStack (rest ++ [a; b])) = (true, s')
                      /\ truthy (fst (peek s')) = false))
  /\ (a = JNull \/ b = JNull ->
      OP_EQUALVERIFY (mkStack (rest ++ [a; b])) = (false, mkStack rest)
      /\ OP_EQUAL (mkStack (rest ++ [a; b])) = (false, mkStack rest))
  /\ (forall (l : list value) (sig pubkey h publicKey signature : value),
         is_item sig -> is_item pubkey -> is_item h -> hash160 pubkey <> h ->
         p2pkh_script sig pubkey h publicKey signature (mkStack l)
         = ([true; true; false; true],
            if decide (pubkey = publicKey /\ sig = signature)
            then VALID else INVALID,
            mkStack (l ++ [JNum (if decide (pubkey = publicKey /\ sig = signature)
                                 then 1 else 0)]))).
Proof.
  split; [| split; [| split]].
  - rewrite !OP_EQUAL_top_any.
    by rewrite (orb_comm (strict_eq a JNull)), (strict_eq_sym a b).
  - intros Ha Hb.
    rewrite OP_EQUALVERIFY_top, OP_EQUAL_top by assumption. cbn [fst].
    split.
    + intros ->. eexists; split; [reflexivity |].
      by rewrite peek_snoc.
    + intros (s' & Heq & Hf). injection Heq as <-.
      rewrite peek_snoc in Hf. cbn [fst] in Hf.
      by destruct (strict_eq a b).
  - intros Hnull.
    assert (Hab : strict_eq a JNull || strict_eq b JNull = true).
    { apply orb_true_iff. by rewrite !strict_eq_null_iff. }
    by rewrite OP_EQUALVERIFY_top_any, OP_EQUAL_top_any, Hab.
  - intros l sig pubkey h publicKey signature Hs Hp Hh Hne.
    rewrite p2pkh_script_run by assumption. cbv zeta.
    assert (Hv : strict_eq pubkey publicKey && strict_eq sig signature
                 = bool_decide (pubkey = publicKey /\ sig = signature))
      by (unfold strict_eq; by rewrite bool_decide_and).
    assert (Hf : strict_eq (hash160 pubkey) h = false)
      by (unfold strict_eq; by rewrite bool_decide_eq_false).
    rewrite Hv, Hf. by case_bool_decide; case_decide.
Qed.

Lemma EQUAL_symmetric_EQUALVERIFY_reports_witness :
  (fst (OP_EQUALVERIFY (mkStack [hash160 publicKey; JStr "other-hash"])) = false
   <-> exists s', OP_EQUAL (mkStack [hash160 publicKey; JStr "other-hash"])
                  = (true, s')
                  /\ truthy (fst (peek s')) = false)
  /\ (OP_EQUALVERIFY (mkStack [JStr "x"; JNull]) = (false, mkStack [])
      /\ OP_EQUAL (mkStack [JStr "x"; JNull]) = (false, mkStack []))
  /\ p2pkh_script signature publicKey (JStr "hash-of-another-key")
       publicKey signature Stack_new
     = ([true; true; false; true], VALID, mkStack [JNum 1]).
Proof.
  split; [| split].
  - apply (EQUAL_symmetric_EQUALVERIFY_reports
             [] (hash160 publicKey) (JStr "other-hash")); discriminate.
  - apply (EQUAL_symmetric_EQUALVERIFY_reports [] (JStr "x") JNull). by right.
  - apply (proj2 (proj2 (proj2
                            (EQUAL_symmetric_EQUALVERIFY_reports [] JNull JNull)))
             [] signature publicKey (JStr "hash-of-another-key")
             publicKey signature);
      discriminate.
Defined.

(** The acceptance check reads the top of the stack and nothing else. *)
Lemma validation_result_spec (s : Stack) :
  snd (validation_result s) = s
  /\ (fst (validation_result s) = VALID
      <-> exists rest, items s = rest ++ [JNum 1]).
Proof.
  destruct s as [l]. destruct l as [|x l _] using rev_ind.
  - rewrite validation_result_nil. cbn. split; [done |].
    split; [discriminate | intros [[|] H]; discriminate H].
  - rewrite validation_result_top. cbn [fst snd items]. split; [done |].
    unfold strict_eq. case_bool_decide as Hx.
    + subst x. split; [by exists l | done].
    + split; [discriminate |].
      intros [rest H]. apply app_inj_tail in H as [_ H]. done.
Qed.

(** Names the result of every step of a run up to the acceptance check,
    then reads the verdict off [validation_result_spec]. *)
Ltac run_to_verdict :=
  repeat match goal with
         | |- context [let (_, _) := ?c in _] =>
             lazymatch c with
             | validation_result _ => fail
             | _ => destruct c
             end
         end;
  match goal with
  | |- context [validation_result ?s'] =>
      let Hs := fresh "Hs" in
      let Hv := fresh "Hv" in
      destruct (validation_result_spec s') as [Hs Hv];
      destruct (validation_result s')
  end;
  cbn [fst snd] in *; subst.

(** The run does not stop when an executor reports failure: with a hash
    literal that does not match, [OP_EQUALVERIFY] returns [false], and
    [OP_CHECKSIG] still runs and the verdict is [VALID]. *)
Example p2pkh_wrong_hash_accepted :
  p2pkh_script signature publicKey (JStr "hash-of-another-key")
    publicKey signature Stack_new
  = ([true; true; false; true], VALID, mkStack [JNum 1]).
Proof. reflexivity. Qed.

(** C1 fails as stated: the P2SH run is accepted although three items,
    not exactly one, remain on the stack. *)
Lemma p2sh_demo_valid_with_three_items :
  ~ (snd (fst p2sh_demo) = VALID ->
     exists x, items (snd p2sh_demo) = [x] /\ truthy x = true).
Proof.
  intros H. destruct (H eq_refl) as (x & Hx & _). discriminate Hx.
Qed.

(** C1, amended.  Every executor reports a stack underflow, and
    [OP_EQUALVERIFY] a mismatch, by returning [false].  A run is accepted
    exactly when the top item of the final stack is the number [1]; the
    check leaves the stack as it is and does not count the items.  Both
    demo runs are accepted, with no executor reporting failure: the P2PKH
    run ends with the stack [1], the P2SH run with [sig1, sig2, 1]. *)
Theorem demo_acceptance_rule :
  (forall (s : Stack) (pk sg : value),
      ((length (items s) < 1)%nat ->
       fst (OP_DUP s) = false /\ fst (OP_HASH160 s) = false)
      /\ ((length (items s) < 2)%nat ->
          fst (OP_EQUAL s) = false /\ fst (OP_EQUALVERIFY s) = false
          /\ fst (OP_CHECKSIG pk sg s) = false))
  /\ (forall (rest : list value) (a b : value),
         a <> b -> fst (OP_EQUALVERIFY (mkStack (rest ++ [a; b]))) = false)
  /\ (forall s : Stack,
         snd (validation_result s) = s
         /\ (fst (validation_result s) = VALID
             <-> exists rest, items s = rest ++ [JNum 1]))
  /\ (forall (sig pubkey h pk sg : value) (s : Stack),
         let r := p2pkh_script sig pubkey h pk sg s in
         snd (fst r) = VALID <-> exists rest, items (snd r) = rest ++ [JNum 1])
  /\ (forall (s1 s2 rs rh : value) (s : Stack),
         let r := p2sh_script s1 s2 rs rh s in
         snd (fst r) = VALID <-> exists rest, items (snd r) = rest ++ [JNum 1])
  /\ p2pkh_demo = ([true; true; true; true], VALID, mkStack [JNum 1])
  /\ p2sh_demo = ([true; true], VALID, mkStack [sig1; sig2; JNum 1]).
Proof.
  split; [exact underflow_reported |].
  split.
  { intros rest a b Hab. rewrite OP_EQUALVERIFY_top_any. cbn [fst].
    destruct (strict_eq a JNull || strict_eq b JNull); [done |].
    unfold strict_eq. by rewrite bool_decide_eq_false. }
  split; [exact validation_result_spec |].
  split; [| split; [| split; reflexivity]].
  - intros sig pubkey h pk sg s. cbv zeta.
    unfold p2pkh_script, bind, ret.
    by run_to_verdict.
  - intros s1 s2 rs rh s. cbv zeta.
    unfold p2sh_script, bind, ret.
    by run_to_verdict.
Qed.

Lemma demo_acceptance_rule_witness :
  (length (items Stack_new) < 1)%nat
  /\ fst (OP_DUP Stack_new) = false
  /\ fst (OP_EQUALVERIFY (mkStack [JStr "x"])) = false
  /\ fst (OP_EQUALVERIFY
            (mkStack [hash160 publicKey; JStr "hash-of-another-key"])) = false.
Proof.
  destruct demo_acceptance_rule as (Hunder & Hmismatch & _).
  split; [cbn; lia |].
  split; [apply (Hunder Stack_new JNull JNull); cbn; lia |].
  split; [apply (Hunder (mkStack [JStr "x"]) JNull JNull); cbn; lia |].
  apply (Hmismatch [] (hash160 publicKey) (JStr "hash-of-another-key")).
  discriminate.
Defined.

(** ** The multi-signature walk *)

Section MultisigFacts.
Variable verify : value -> value -> bool.
Implicit Types (pubkeys sigs ks l rest : list value) (sg k a b : value).

(** The walk succeeds exactly when the signatures verify, one by one,
    against a subsequence of the keys. *)
Lemma match_signatures_sublist pubkeys sigs :
  match_signatures verify pubkeys sigs = true
  <-> exists ks, ks `sublist_of` pubkeys /\ Forall2 (verifies verify) sigs ks.
Proof.
  revert sigs. induction pubkeys as [|key pubkeys IH]; intros [|sg sigs].
  - split; [exists []; by split; constructor | done].
  - split; [discriminate |].
    intros (ks & Hsub & Hall). apply sublist_nil_r in Hsub as ->.
    inversion Hall.
  - split; [exists []; split; [apply sublist_nil_l | constructor] | done].
  - cbn [match_signatures]. destruct (verify sg key) eqn:Hv.
    + rewrite IH. split.
      * intros (ks & Hsub & Hall). exists (key :: ks).
        split; [by constructor | by constructor].
      * intros (ks & Hsub & Hall).
        inversion Hall as [|? k' ? ks' Hk Hall']; subst.
        exists ks'. split; [| done].
        apply sublist_cons_r in Hsub as [Hsub | (l' & [= <- <-] & Hsub)];
          [| done].
        etrans; [| exact Hsub]. by constructor.
    + rewrite IH. split.
      * intros (ks & Hsub & Hall). exists ks. split; [by constructor | done].
      * intros (ks & Hsub & Hall). exists ks. split; [| done].
        apply sublist_cons_r in Hsub as [Hsub | (l' & -> & Hsub)]; [done |].
        inversion Hall; subst. congruence.
Qed.

(** Two distinct positions of a duplicate-free list cannot be listed in
    both orders. *)
Lemma sublist_no_swap l a b :
  NoDup l -> [a; b] `sublist_of` l -> [b; a] `sublist_of` l -> False.
Proof.
  induction l as [|x l IH]; intros Hnd Hab Hba.
  - by apply sublist_nil_r in Hab.
  - apply NoDup_cons in Hnd as [Hx Hnd].
    apply sublist_cons_r in Hab as [Hab | (l1 & [= <- <-] & Hb)];
      apply sublist_cons_r in Hba as [Hba | (l2 & [= ? ?] & Ha)]; subst.
    + by apply IH.
    + apply Hx. eapply elem_of_sublist; [| exact Hab]. set_solver.
    + apply Hx. eapply elem_of_sublist; [| exact Hba]. set_solver.
    + apply Hx. eapply elem_of_sublist; [| exact Hb]. set_solver.
Qed.

Lemma sublist_reverse_short l ks :
  NoDup l -> ks `sublist_of` l -> reverse ks `sublist_of` l ->
  (length ks <= 1)%nat.
Proof.
  intros Hnd Hks Hrev. destruct ks as [|a [|b t]]; cbn; [lia | lia |].
  exfalso. apply (sublist_no_swap l a b Hnd).
  - etrans; [| exact Hks]. do 2 constructor. apply sublist_nil_l.
  - etrans; [| exact Hrev]. rewrite !reverse_cons, <- snoc2.
    by apply sublist_inserts_l.
Qed.

(** Signatures, each made for one key of the list, pin down the keys
    they verify against. *)
Lemma signed_by_unique pubkeys sigs ks ks' :
  Forall2 (signed_by verify pubkeys) sigs ks ->
  Forall2 (verifies verify) sigs ks' ->
  ks' ⊆ pubkeys ->
  ks' = ks.
Proof.
  intros Hown. revert ks'.
  induction Hown as [|sg k sigs ks Hk Hown IH]; intros ks' Hall Hin.
  - by inversion Hall.
  - inversion Hall as [|? k' ? ks'' Hv Hall']; subst.
    f_equal.
    + apply (Hk k'); [apply Hin; by left | done].
    + apply IH; [done |]. intros x Hx. apply Hin. by right.
Qed.

Lemma signed_by_verifies pubkeys sigs ks :
  ks ⊆ pubkeys ->
  Forall2 (signed_by verify pubkeys) sigs ks -> Forall2 (verifies verify) sigs ks.
Proof.
  intros Hin Hown. induction Hown as [|sg k sigs ks Hk Hown IH]; constructor.
  - apply (Hk k); [apply Hin; by left | done].
  - apply IH. intros x Hx. apply Hin. by right.
Qed.

(** Signatures in key order pass the walk; two or more of them in
    reversed order do not. *)
Lemma match_signatures_reverse pubkeys sigs ks :
  NoDup pubkeys -> ks `sublist_of` pubkeys ->
  Forall2 (signed_by verify pubkeys) sigs ks ->
  (2 <= length sigs)%nat ->
  match_signatures verify pubkeys sigs = true
  /\ match_signatures verify pubkeys (reverse sigs) = false.
Proof.
  intros Hnd Hsub Hown Hlen. split.
  - apply match_signatures_sublist. exists ks. split; [done |].
    apply (signed_by_verifies pubkeys); [by apply sublist_subseteq | done].
  - apply not_true_is_false. intros Hrev.
    apply match_signatures_sublist in Hrev as (ks' & Hsub' & Hall').
    assert (ks' = reverse ks) as ->.
    { apply (signed_by_unique pubkeys (reverse sigs));
        [by apply Forall2_reverse | done | by apply sublist_subseteq]. }
    pose proof (sublist_reverse_short _ _ Hnd Hsub Hsub').
    apply Forall2_length in Hown. lia.
Qed.
End MultisigFacts.

(** ** The multi-signature executor on its stack *)

Lemma as_count_of_nat (n : nat) : as_count (JNum (Z.of_nat n)) = Some n.
Proof.
  unfold as_count. rewrite (proj2 (Z.leb_le 0 (Z.of_nat n))) by lia.
  by rewrite Nat2Z.id.
Qed.

Lemma pop_n_app (rest l : list value) :
  Forall is_item l ->
  pop_n (length l) (mkStack (rest ++ l)) = (Some l, mkStack rest).
Proof.
  induction l as [|x l IH] using rev_ind; intros Hl.
  - by rewrite app_nil_r.
  - apply Forall_app in Hl as [Hl Hx]. apply Forall_cons in Hx as [Hx _].
    rewrite length_app, Nat.add_1_r. cbn [pop_n]. unfold bind, ret.
    rewrite (assoc_L (++)), pop_snoc, (strict_eq_null _ Hx).
    by rewrite IH.
Qed.

Lemma OP_CHECKMULTISIG_run (verify : value -> value -> bool)
    (rest : list value) (dummy : value) (sigs pubkeys : list value) :
  is_item dummy -> Forall is_item sigs -> Forall is_item pubkeys ->
  OP_CHECKMULTISIG verify (multisig_stack rest dummy sigs pubkeys)
  = (true,
     mkStack (rest ++ [JNum (if match_signatures verify pubkeys sigs
                             then 1 else 0)])).
Proof.
  intros Hd Hs Hp. unfold OP_CHECKMULTISIG, multisig_stack, bind.
  rewrite !(assoc_L (++)).
  rewrite pop_snoc, as_count_of_nat, pop_n_app by assumption.
  rewrite pop_snoc, as_count_of_nat, pop_n_app by assumption.
  rewrite pop_snoc, (strict_eq_null _ Hd), push_spec. reflexivity.
Qed.

(** C6.  On the stack built by a multisig script, [CHECKMULTISIG] pushes
    [1] exactly when the presented signatures verify, one by one, against
    a subsequence of the key list, that is, in the relative order of the
    keys.  When the keys are distinct, each signature verifies against
    its own key only, and at least two signatures are presented in key
    order, the executor pushes [1]; on the same signatures in reversed
    order it pushes [0]. *)
Theorem CHECKMULTISIG_order_sensitive (verify : value -> value -> bool)
    (rest : list value) (dummy : value) (sigs pubkeys : list value) :
  is_item dummy -> Forall is_item sigs -> Forall is_item pubkeys ->
  (OP_CHECKMULTISIG verify (multisig_stack rest dummy sigs pubkeys)
   = (true, mkStack (rest ++ [JNum 1]))
   <-> exists ks, ks `sublist_of` pubkeys /\ Forall2 (verifies verify) sigs ks)
  /\ (forall ks,
         NoDup pubkeys -> ks `sublist_of` pubkeys ->
         Forall2 (signed_by verify pubkeys) sigs ks ->
         (2 <= length sigs)%nat ->
         OP_CHECKMULTISIG verify (multisig_stack rest dummy sigs pubkeys)
         = (true, mkStack (rest ++ [JNum 1]))
         /\ OP_CHECKMULTISIG verify
              (multisig_stack rest dummy (reverse sigs) pubkeys)
            = (true, mkStack (rest ++ [JNum 0]))).
Proof.
  intros Hd Hs Hp. split.
  - rewrite OP_CHECKMULTISIG_run by assumption.
    rewrite <- match_signatures_sublist.
    destruct (match_signatures verify pubkeys sigs); split; try done.
    intros [= H]. apply app_inv_head in H. discriminate H.
  - intros ks Hnd Hsub Hown Hlen.
    destruct (match_signatures_reverse verify pubkeys sigs ks)
      as [Hfwd Hrev]; try assumption.
    rewrite !OP_CHECKMULTISIG_run by (assumption || by apply Forall_reverse).
    by rewrite Hfwd, Hrev.
Qed.

(** Decides [signed_by] for the mock verifier on an explicit key list. *)
Ltac mock_signed_by :=
  let k := fresh "k" in
  let Hk := fresh "Hk" in
  intros k Hk;
  repeat (apply elem_of_cons in Hk as [-> | Hk]);
  [ split; intros H; first [reflexivity | discriminate H | vm_compute in H; discriminate H] ..
  | by apply elem_of_nil in Hk ].

Lemma CHECKMULTISIG_order_sensitive_witness :
  OP_CHECKMULTISIG mock_verify
    (multisig_stack [] (JStr "") [sig_alice; sig_charlie] [alice; bob; charlie])
  = (true, mkStack [JNum 1])
  /\ OP_CHECKMULTISIG mock_verify
       (multisig_stack [] (JStr "") [sig_charlie; sig_alice] [alice; bob; charlie])
     = (true, mkStack [JNum 0]).
Proof.
  apply (proj2 (CHECKMULTISIG_order_sensitive mock_verify [] (JStr "")
                  [sig_alice; sig_charlie] [alice; bob; charlie]
                  ltac:(discriminate)
                  ltac:(repeat constructor; discriminate)
                  ltac:(repeat constructor; discriminate))
           [alice; charlie]).
  - apply (bool_decide_unpack _). vm_compute. reflexivity.
  - do 1 constructor. apply sublist_cons. do 1 constructor. apply sublist_nil_l.
  - constructor; [mock_signed_by |].
    constructor; [mock_signed_by | constructor].
  - cbn. lia.
Defined.

(** * Further properties of the code *)

(** ** The [Stack] class *)

(** [pop] undoes [push]: it returns the pushed item, whatever it is, and
    restores the stack; [push] returns the new depth and [peek] shows the
    pushed item. *)
Theorem push_pop_roundtrip (s : Stack) (x : value) :
  fst (push x s) = S (length (items s))
  /\ pop (snd (push x s)) = (x, s)
  /\ peek (snd (push x s)) = (x, snd (push x s)).
Proof.
  destruct s as [l]. rewrite push_spec. cbn [fst snd items].
  rewrite length_app, Nat.add_1_r, pop_snoc, peek_snoc. done.
Qed.

(** On a non-empty stack [pop] returns the item [peek] shows and removes
    exactly that item from the end of the array; [peek] removes nothing. *)
Theorem pop_returns_peeked (s : Stack) :
  items s <> [] ->
  fst (pop s) = fst (peek s)
  /\ snd (peek s) = s
  /\ items s = items (snd (pop s)) ++ [fst (pop s)].
Proof.
  destruct s as [l]; cbn [items]. intros Hl.
  destruct l as [|x l _] using rev_ind; [done |].
  by rewrite pop_snoc, peek_snoc.
Qed.

Lemma pop_returns_peeked_witness :
  fst (pop (mkStack [signature; publicKey])) = fst (peek (mkStack [signature; publicKey]))
  /\ snd (peek (mkStack [signature; publicKey])) = mkStack [signature; publicKey]
  /\ [signature; publicKey]
     = items (snd (pop (mkStack [signature; publicKey])))
       ++ [fst (pop (mkStack [signature; publicKey]))].
Proof.
  apply (pop_returns_peeked (mkStack [signature; publicKey])). discriminate.
Defined.

(** ** The executors on arbitrary stacks *)


(** A [null] operand is reported like a missing one, even though enough
    items are present: [OP_DUP] leaves the stack as it is, [OP_HASH160]
    has removed the [null], and the two-operand executors have removed
    both operands. *)
Theorem null_operand_reported (rest : list value) (a b publicKey signature : value) :
  a = JNull \/ b = JNull ->
  OP_DUP (mkStack (rest ++ [JNull])) = (false, mkStack (rest ++ [JNull]))
  /\ OP_HASH160 (mkStack (rest ++ [JNull])) = (false, mkStack rest)
  /\ OP_EQUAL (mkStack (rest ++ [a; b])) = (false, mkStack rest)
  /\ OP_EQUALVERIFY (mkStack (rest ++ [a; b])) = (false, mkStack rest)
  /\ OP_CHECKSIG publicKey signature (mkStack (rest ++ [a; b]))
     = (false, mkStack rest).
Proof.
  intros Hnull.
  assert (Hab : strict_eq a JNull || strict_eq b JNull = true).
  { apply orb_true_iff. rewrite !strict_eq_null_iff. done. }
  rewrite OP_DUP_top_any, OP_HASH160_top_any, OP_EQUAL_top_any,
    OP_EQUALVERIFY_top_any, OP_CHECKSIG_top_any.
  rewrite (orb_comm (strict_eq b JNull)), Hab, strict_eq_refl. done.
Qed.

Lemma null_operand_reported_witness :
  OP_EQUAL (mkStack [sig1; JNull; redeemScriptHash]) = (false, mkStack [sig1])
  /\ OP_CHECKSIG publicKey signature (mkStack [JNull; publicKey])
     = (false, mkStack []).
Proof.
  split.
  - apply (null_operand_reported [sig1] JNull redeemScriptHash JNull JNull).
    by left.
  - apply (null_operand_reported [] JNull publicKey publicKey signature).
    by left.
Defined.

(** No executor ever puts [null] on the stack: a stack of proper items
    stays a stack of proper items. *)
Theorem executors_keep_items_proper (s : Stack) (publicKey signature : value) :
  Forall is_item (items s) ->
  Forall is_item (items (snd (OP_DUP s)))
  /\ Forall is_item (items (snd (OP_HASH160 s)))
  /\ Forall is_item (items (snd (OP_EQUAL s)))
  /\ Forall is_item (items (snd (OP_EQUALVERIFY s)))
  /\ Forall is_item (items (snd (OP_CHECKSIG publicKey signature s))).
Proof.
  destruct s as [l]; cbn [items]. intros Hl.
  assert (Hone : Forall is_item (items (snd (OP_DUP (mkStack l))))
                 /\ Forall is_item (items (snd (OP_HASH160 (mkStack l))))).
  { destruct l as [|x l _] using rev_ind; [by split |].
    apply Forall_app in Hl as [Hl Hx]. apply Forall_cons in Hx as [Hx _].
    rewrite OP_DUP_top, OP_HASH160_top by assumption. cbn [snd items].
    split; apply Forall_app; (split; [done |]); repeat constructor; done. }
  destruct Hone as [Hdup Hhash]. split; [done |]. split; [done |].
  destruct (array_cases l) as [-> | [[x ->] | (rest & a & b & ->)]].
  - by repeat split.
  - rewrite OP_EQUAL_single, OP_EQUALVERIFY_single, OP_CHECKSIG_single.
    by repeat split.
  - destruct (items_top2 _ _ _ Hl) as [Ha Hb].
    apply Forall_app in Hl as [Hrest _].
    rewrite OP_EQUAL_top, OP_EQUALVERIFY_top, OP_CHECKSIG_top by assumption.
    cbn [snd items].
    split; [| split; [done |]];
      (apply Forall_app; split; [done |]; repeat constructor; discriminate).
Qed.

Lemma executors_keep_items_proper_witness :
  Forall is_item (items (snd (OP_DUP (mkStack [signature; publicKey])))).
Proof.
  apply (executors_keep_items_proper (mkStack [signature; publicKey])
           publicKey signature).
  repeat constructor; discriminate.
Defined.

(** What a successful executor does to the depth of the stack: [OP_DUP]
    adds one item, [OP_HASH160] keeps the depth, [OP_EQUAL] and
    [OP_CHECKSIG] remove one item; [OP_EQUALVERIFY] removes two items from
    any stack that has two, whatever it returns. *)
Theorem executor_stack_depth (s : Stack) (publicKey signature : value) :
  (fst (OP_DUP s) = true ->
   length (items (snd (OP_DUP s))) = S (length (items s)))
  /\ (fst (OP_HASH160 s) = true ->
      length (items (snd (OP_HASH160 s))) = length (items s))
  /\ (fst (OP_EQUAL s) = true ->
      S (length (items (snd (OP_EQUAL s)))) = length (items s))
  /\ (fst (OP_CHECKSIG publicKey signature s) = true ->
      S (length (items (snd (OP_CHECKSIG publicKey signature s))))
      = length (items s))
  /\ ((2 <= length (items s))%nat ->
      (length (items (snd (OP_EQUALVERIFY s))) + 2)%nat = length (items s)).
Proof.
  destruct s as [l]; cbn [items].
  split; [| split].
  - destruct l as [|x l _] using rev_ind; [discriminate |].
    rewrite OP_DUP_top_any. destruct (strict_eq x JNull); [discriminate |].
    intros _. cbn [snd items]. rewrite !length_app. cbn [length]. lia.
  - destruct l as [|x l _] using rev_ind; [discriminate |].
    rewrite OP_HASH160_top_any. destruct (strict_eq x JNull); [discriminate |].
    intros _. cbn [snd items]. by rewrite !length_app.
  - destruct (array_cases l) as [-> | [[x ->] | (rest & a & b & ->)]].
    + split; [discriminate |]. split; [discriminate | cbn; lia].
    + rewrite OP_EQUAL_single, OP_CHECKSIG_single.
      split; [discriminate |]. split; [discriminate | cbn; lia].
    + rewrite OP_EQUAL_top_any, OP_CHECKSIG_top_any, OP_EQUALVERIFY_top_any.
      destruct (strict_eq a JNull || strict_eq b JNull),
        (strict_eq b JNull || strict_eq a JNull);
        cbn [fst snd items]; rewrite !length_app; cbn [length];
        repeat split; intros; first [discriminate | lia].
Qed.

Lemma executor_stack_depth_witness :
  length (items (snd (OP_DUP (mkStack [signature; publicKey])))) = 3%nat
  /\ (length (items (snd (OP_EQUALVERIFY
                             (mkStack [signature; publicKey; JStr "h1"; JStr "h2"]))))
      + 2)%nat = 4%nat.
Proof.
  split.
  - apply (executor_stack_depth (mkStack [signature; publicKey])
             publicKey signature). reflexivity.
  - apply (executor_stack_depth
             (mkStack [signature; publicKey; JStr "h1"; JStr "h2"])
             publicKey signature). cbn. lia.
Defined.

(** A failed executor pushes nothing.  [OP_DUP] leaves the stack as it
    found it; [OP_HASH160] has removed the top item if there was one;
    [OP_EQUAL] and [OP_CHECKSIG] have removed the top two items, or all
    items if there were fewer.  [OP_EQUALVERIFY] leaves the stack without
    its top two items whether it fails or not. *)
Theorem failed_executor_pushes_nothing (s : Stack) (publicKey signature : value) :
  (fst (OP_DUP s) = false -> snd (OP_DUP s) = s)
  /\ (fst (OP_HASH160 s) = false ->
      items (snd (OP_HASH160 s)) = take (length (items s) - 1) (items s))
  /\ (fst (OP_EQUAL s) = false ->
      items (snd (OP_EQUAL s)) = take (length (items s) - 2) (items s))
  /\ items (snd (OP_EQUALVERIFY s)) = take (length (items s) - 2) (items s)
  /\ (fst (OP_CHECKSIG publicKey signature s) = false ->
      items (snd (OP_CHECKSIG publicKey signature s))
      = take (length (items s) - 2) (items s)).
Proof.
  destruct s as [l]; cbn [items].
  split; [| split].
  - destruct l as [|x l _] using rev_ind; [done |].
    rewrite OP_DUP_top_any. by destruct (strict_eq x JNull).
  - destruct l as [|x l _] using rev_ind; [done |].
    rewrite OP_HASH160_top_any, take_snoc1.
    by destruct (strict_eq x JNull).
  - destruct (array_cases l) as [-> | [[x ->] | (rest & a & b & ->)]].
    + by repeat split.
    + rewrite OP_EQUAL_single, OP_EQUALVERIFY_single, OP_CHECKSIG_single.
      by repeat split.
    + rewrite OP_EQUAL_top_any, OP_EQUALVERIFY_top_any, OP_CHECKSIG_top_any,
        take_snoc2.
      destruct (strict_eq a JNull || strict_eq b JNull),
        (strict_eq b JNull || strict_eq a JNull); by repeat split.
Qed.

Lemma failed_executor_pushes_nothing_witness :
  snd (OP_DUP Stack_new) = Stack_new
  /\ items (snd (OP_EQUAL (mkStack [redeemScript]))) = [].
Proof.
  split.
  - apply (failed_executor_pushes_nothing Stack_new JNull JNull). reflexivity.
  - apply (failed_executor_pushes_nothing (mkStack [redeemScript]) JNull JNull).
    reflexivity.
Defined.

(** The executors read and change the top two items only: on a stack
    [rest ++ [a; b]] each returns what it returns on [[a; b]] and leaves
    [rest] in place under what it leaves of [[a; b]]. *)
Theorem executors_touch_top_two_only
    (rest : list value) (a b publicKey signature : value) :
  OP_DUP (mkStack (rest ++ [a; b]))
  = (fst (OP_DUP (mkStack [a; b])),
     mkStack (rest ++ items (snd (OP_DUP (mkStack [a; b])))))
  /\ OP_HASH160 (mkStack (rest ++ [a; b]))
     = (fst (OP_HASH160 (mkStack [a; b])),
        mkStack (rest ++ items (snd (OP_HASH160 (mkStack [a; b])))))
  /\ OP_EQUAL (mkStack (rest ++ [a; b]))
     = (fst (OP_EQUAL (mkStack [a; b])),
        mkStack (rest ++ items (snd (OP_EQUAL (mkStack [a; b])))))
  /\ OP_EQUALVERIFY (mkStack (rest ++ [a; b]))
     = (fst (OP_EQUALVERIFY (mkStack [a; b])),
        mkStack (rest ++ items (snd (OP_EQUALVERIFY (mkStack [a; b])))))
  /\ OP_CHECKSIG publicKey signature (mkStack (rest ++ [a; b]))
     = (fst (OP_CHECKSIG publicKey signature (mkStack [a; b])),
        mkStack (rest
                 ++ items (snd (OP_CHECKSIG publicKey signature
                                  (mkStack [a; b]))))).
Proof.
  pose proof (OP_DUP_top_any [a] b) as Hd.
  pose proof (OP_HASH160_top_any [a] b) as Hh.
  pose proof (OP_EQUAL_top_any [] a b) as He.
  pose proof (OP_EQUALVERIFY_top_any [] a b) as Hv.
  pose proof (OP_CHECKSIG_top_any [] a b publicKey signature) as Hc.
  cbn [app] in Hd, Hh, He, Hv, Hc. rewrite Hd, Hh, He, Hv, Hc.
  rewrite !snoc2, OP_DUP_top_any, OP_HASH160_top_any, <- !snoc2.
  rewrite OP_EQUAL_top_any, OP_EQUALVERIFY_top_any, OP_CHECKSIG_top_any.
  destruct (strict_eq b JNull), (strict_eq a JNull);
    cbn [orb fst snd items app]; rewrite ?app_nil_r, <- ?(assoc_L (++)); done.
Qed.

(** ** Strings *)

Lemma string_length_app (s1 s2 : string) :
  String.length (s1 +:+ s2) = (String.length s1 + String.length s2)%nat.
Proof.
  induction s1 as [|c s1 IH]; [done |].
  change (S (String.length (s1 +:+ s2))
          = S (String.length s1 + String.length s2)).
  by rewrite IH.
Qed.

Lemma string_app_assoc (s1 s2 s3 : string) :
  (s1 +:+ s2) +:+ s3 = s1 +:+ (s2 +:+ s3).
Proof.
  induction s1 as [|c s1 IH]; [done |].
  change (String c ((s1 +:+ s2) +:+ s3) = String c (s1 +:+ (s2 +:+ s3))).
  by rewrite IH.
Qed.

(** ** How the executors compose *)

(** [OP_DUP] followed by [OP_EQUAL] replaces a top item that is a string
    or an integer by [1]; followed by [OP_EQUALVERIFY] it returns [true]
    and removes the item. *)
Theorem dup_then_equal (rest : list value) (x : value) :
  (exists s, x = JStr s) \/ (exists n, x = JNum n) ->
  (do! OP_DUP in OP_EQUAL) (mkStack (rest ++ [x]))
  = (true, mkStack (rest ++ [JNum 1]))
  /\ (do! OP_DUP in OP_EQUALVERIFY) (mkStack (rest ++ [x]))
     = (true, mkStack rest).
Proof.
  intros Hx.
  assert (Hitem : is_item x) by (destruct Hx as [[? ->] | [? ->]]; discriminate).
  unfold bind.
  rewrite OP_DUP_top, OP_EQUAL_top, OP_EQUALVERIFY_top by assumption.
  by rewrite strict_eq_refl.
Qed.

Lemma dup_then_equal_witness :
  (do! OP_DUP in OP_EQUAL) (mkStack [signature; publicKey])
  = (true, mkStack [signature; JNum 1])
  /\ (do! OP_DUP in OP_EQUALVERIFY) (mkStack [signature; publicKey])
     = (true, mkStack [signature]).
Proof.
  apply (dup_then_equal [signature] publicKey). left. by eexists.
Defined.

(** The locking prefix [OP_DUP OP_HASH160 <h> OP_EQUALVERIFY] leaves the
    stack exactly as it found it and returns whether [h] is the simulated
    hash of the top item. *)
Theorem p2pkh_prefix_checks_hash (rest : list value) (x h : value) :
  is_item x -> is_item h ->
  (do! OP_DUP in do! OP_HASH160 in do! push h in OP_EQUALVERIFY)
    (mkStack (rest ++ [x]))
  = (bool_decide (h = JStr ("hash-" +:+ to_string x)), mkStack (rest ++ [x])).
Proof.
  intros Hx Hh. unfold bind.
  rewrite OP_DUP_top, snoc2, OP_HASH160_top, push_spec, <- snoc2
    by assumption.
  rewrite OP_EQUALVERIFY_top by (assumption || discriminate).
  by rewrite strict_eq_sym.
Qed.

Lemma p2pkh_prefix_checks_hash_witness :
  (do! OP_DUP in do! OP_HASH160 in do! push publicKeyHash in OP_EQUALVERIFY)
    (mkStack [signature; publicKey])
  = (true, mkStack [signature; publicKey]).
Proof.
  apply (p2pkh_prefix_checks_hash [signature] publicKey publicKeyHash);
    discriminate.
Defined.

(** The simulated hash never maps two different strings to the same
    value, and never returns the string it was given. *)
Theorem hash160_injective_on_strings (s1 s2 : string) :
  (hash160 (JStr s1) = hash160 (JStr s2) -> s1 = s2)
  /\ hash160 (JStr s1) <> JStr s1.
Proof.
  split.
  - unfold hash160. cbn [to_string]. intros H. injection H as H. exact H.
  - unfold hash160. cbn [to_string]. intros [= H].
    apply (f_equal String.length) in H. rewrite string_length_app in H.
    change (String.length "hash-") with 5%nat in H. lia.
Qed.

Lemma hash160_injective_on_strings_witness :
  "actual-public-key" = "actual-public-key".
Proof.
  apply (hash160_injective_on_strings "actual-public-key" "actual-public-key").
  reflexivity.
Defined.

(** ** The two runs on arbitrary data *)

(** The P2PKH run, started on any stack with proper items as data,
    accepts exactly when the pushed public key and signature are the
    expected ones.  The hash literal plays no part in the verdict: whether
    it matches is only reported in the third flag. *)
Theorem p2pkh_verdict_ignores_hash
    (l : list value) (sig pubkey h publicKey signature : value) :
  is_item sig -> is_item pubkey -> is_item h ->
  let r := p2pkh_script sig pubkey h publicKey signature (mkStack l) in
  (snd (fst r) = VALID <-> pubkey = publicKey /\ sig = signature)
  /\ fst (fst r) = [true; true; bool_decide (hash160 pubkey = h); true]
  /\ items (snd r)
     = l ++ [JNum (if decide (pubkey = publicKey /\ sig = signature)
                   then 1 else 0)].
Proof.
  intros Hs Hp Hh. cbv zeta. rewrite p2pkh_script_run by assumption.
  cbv zeta. cbn [fst snd items].
  assert (Hv : strict_eq pubkey publicKey && strict_eq sig signature
               = bool_decide (pubkey = publicKey /\ sig = signature))
    by (unfold strict_eq; by rewrite bool_decide_and).
  rewrite Hv. split; [| split; [done |]].
  - case_bool_decide; split; done.
  - by case_bool_decide; case_decide.
Qed.

Lemma p2pkh_verdict_ignores_hash_witness :
  snd (fst (p2pkh_script signature publicKey (JStr "hash-of-another-key")
              publicKey signature (mkStack [JStr "below"]))) = VALID
  <-> publicKey = publicKey /\ signature = signature.
Proof.
  apply (p2pkh_verdict_ignores_hash [JStr "below"] signature publicKey
           (JStr "hash-of-another-key") publicKey signature); discriminate.
Defined.

(** The P2SH run, started on any stack, accepts exactly when the hash
    literal is the simulated hash of the redeem script.  The two
    signatures are never examined: they stay on the stack, under the
    result, whatever they are. *)
Theorem p2sh_verdict
    (l : list value) (sig1 sig2 redeemScript redeemScriptHash : value) :
  is_item redeemScript -> is_item redeemScriptHash ->
  let r := p2sh_script sig1 sig2 redeemScript redeemScriptHash (mkStack l) in
  (snd (fst r) = VALID
   <-> redeemScriptHash = JStr ("hash-" +:+ to_string redeemScript))
  /\ fst (fst r) = [true; true]
  /\ exists result, items (snd r) = l ++ [sig1; sig2; result].
Proof.
  intros Hr Hh. cbv zeta. rewrite p2sh_script_run by assumption.
  cbv zeta. cbn [fst snd items]. split; [| split; [done | by eexists]].
  unfold strict_eq, hash160. case_bool_decide; split; done.
Qed.

Lemma p2sh_verdict_witness :
  snd (fst (p2sh_script JNull JNull redeemScript redeemScriptHash Stack_new))
  = VALID
  <-> redeemScriptHash = JStr ("hash-" +:+ to_string redeemScript).
Proof.
  apply (p2sh_verdict [] JNull JNull redeemScript redeemScriptHash);
    discriminate.
Defined.

(** ** [Stack.print] *)

Lemma join_snoc (sep : string) (l : list value) (x : value) :
  l <> [] -> join sep (l ++ [x]) = join sep l +:+ sep +:+ join_text x.
Proof.
  induction l as [|a l IH]; [done |]. intros _.
  destruct l as [|b l]; [done |].
  change (join sep ((a :: b :: l) ++ [x]))
    with (join_text a +:+ sep +:+ join sep ((b :: l) ++ [x])).
  rewrite IH by done.
  change (join sep (a :: b :: l))
    with (join_text a +:+ sep +:+ join sep (b :: l)).
  by rewrite !string_app_assoc.
Qed.

(** What [print] shows after a [push]: the first item alone between the
    brackets, every later item after a comma and a space; a pushed
    [null] or [undefined] shows as nothing. *)
Theorem print_after_push (s : Stack) (x : value) :
  fst (print (snd (push x s)))
  = match items s with
    | [] => "[" +:+ join_text x +:+ "]"
    | _ => "[" +:+ (join ", " (items s) +:+ ", " +:+ join_text x) +:+ "]"
    end
  /\ (x = JNull \/ x = JUndefined -> join_text x = "").
Proof.
  destruct s as [l]. rewrite push_spec. unfold print. cbn [fst snd items].
  split; [| by intros [-> | ->]].
  destruct l as [|a l]; [done |]. by rewrite join_snoc.
Qed.

Lemma print_after_push_witness :
  fst (print (snd (push JNull (mkStack [signature])))) = "[valid-signature, ]".
Proof.
  destruct (print_after_push (mkStack [signature]) JNull) as [Hp Hn].
  rewrite Hp. cbn [items]. rewrite (Hn (or_introl eq_refl)). reflexivity.
Defined.

(** ** [VisualStack] *)

Section VisualFacts.
Implicit Types (l : list value) (x : value) (n : string)
  (h : list (list value)) (o : list string) (vs : Visual.VisualStack).

Lemma visual_push_spec x l n h o :
  Visual.push x (Visual.mkVisualStack l n h o)
  = (length (l ++ [x]),
     Visual.mkVisualStack (l ++ [x]) n (h ++ [l ++ [x]])
       (o ++ ["Push: " +:+ to_string x])).
Proof. reflexivity. Qed.

Lemma visual_pop_nil n h o :
  Visual.pop (Visual.mkVisualStack [] n h o)
  = (JNull, Visual.mkVisualStack [] n h o).
Proof. reflexivity. Qed.

Lemma visual_pop_snoc x l n h o :
  Visual.pop (Visual.mkVisualStack (l ++ [x]) n h o)
  = (x, Visual.mkVisualStack l n (h ++ [l]) (o ++ ["Pop: " +:+ to_string x])).
Proof.
  unfold Visual.pop, Visual.bind, Visual.get_items, Visual.items_pop,
    Visual.recordState, Visual.ret, array_pop.
  cbn [Visual.items Visual.name Visual.history Visual.operations].
  rewrite length_app, Nat.add_1_r; cbn [Nat.eqb].
  cbn [Visual.items Visual.name Visual.history Visual.operations].
  rewrite last_snoc; cbn [default]. rewrite length_app, Nat.add_1_r.
  replace (S (length l) - 1)%nat with (length l) by lia.
  by rewrite take_app_length.
Qed.

Lemma visual_record_spec operation l n h o :
  Visual.recordState operation (Visual.mkVisualStack l n h o)
  = (tt, Visual.mkVisualStack l n (h ++ [l]) (o ++ [operation])).
Proof. reflexivity. Qed.
End VisualFacts.

(** A [VisualStack] is a [Stack] with a log: forgetting the log, its
    [push] and [pop] return what [Stack.push] and [Stack.pop] return and
    leave the same items, and [recordState] leaves the items alone. *)
Theorem visual_refines_stack
    (vs : Visual.VisualStack) (x : value) (operation : string) :
  fst (Visual.push x vs) = fst (push x (Visual.erase vs))
  /\ Visual.erase (snd (Visual.push x vs)) = snd (push x (Visual.erase vs))
  /\ fst (Visual.pop vs) = fst (pop (Visual.erase vs))
  /\ Visual.erase (snd (Visual.pop vs)) = snd (pop (Visual.erase vs))
  /\ Visual.erase (snd (Visual.recordState operation vs)) = Visual.erase vs.
Proof.
  destruct vs as [l n h o]. unfold Visual.erase.
  rewrite visual_push_spec, push_spec.
  cbn [fst snd Visual.items]. split; [done |]. split; [done |].
  destruct l as [|y l _] using rev_ind.
  - by rewrite visual_pop_nil, pop_nil.
  - by rewrite visual_pop_snoc, pop_snoc.
Qed.

(** In every state a [VisualStack] reaches through its methods, there is
    one snapshot per recorded operation, and the latest snapshot is the
    current content of the stack. *)
Theorem visual_log_invariant (vs : Visual.VisualStack) :
  Visual.reachable vs ->
  length (Visual.history vs) = length (Visual.operations vs)
  /\ (last (Visual.history vs) = Some (Visual.items vs)
      \/ Visual.history vs = [] /\ Visual.items vs = []).
Proof.
  induction 1 as [n | x vs _ [IHl IHh] | vs _ [IHl IHh] | op vs _ [IHl IHh]].
  - split; [done | by right].
  - destruct vs as [l n h o]. rewrite visual_push_spec.
    cbn [snd Visual.history Visual.operations Visual.items] in *.
    rewrite !length_app, IHl, last_snoc. split; [done | by left].
  - destruct vs as [l n h o].
    destruct l as [|y l _] using rev_ind.
    + by rewrite visual_pop_nil.
    + rewrite visual_pop_snoc.
      cbn [snd Visual.history Visual.operations Visual.items] in *.
      rewrite !length_app, IHl, last_snoc. split; [done | by left].
  - destruct vs as [l n h o]. rewrite visual_record_spec.
    cbn [snd Visual.history Visual.operations Visual.items] in *.
    rewrite !length_app, IHl, last_snoc. split; [done | by left].
Qed.

Lemma visual_log_invariant_witness :
  length (Visual.history (snd (Visual.pop (snd (Visual.push signature
                                                  (Visual.new "demo"))))))
  = 2%nat.
Proof.
  apply (visual_log_invariant
           (snd (Visual.pop (snd (Visual.push signature (Visual.new "demo")))))).
  do 2 constructor. constructor.
Defined.

(** ** [renderHistory] *)

Section RenderFacts.
Implicit Types (state : list value) (h : list (list value))
  (ops rows : list string) (W : nat).

Lemma repeat_char_length c k : String.length (repeat_char c k) = k.
Proof. induction k as [|k IH]; [done |]. cbn. by rewrite IH. Qed.

Lemma padEnd_length s k :
  String.length (padEnd s k) = Nat.max (String.length s) k.
Proof. unfold padEnd. rewrite string_length_app, repeat_char_length. lia. Qed.

Lemma render_rows_lookup W ops h rows i operation state :
  Visual.render_rows W ops h = Some rows ->
  ops !! i = Some operation -> h !! i = Some state ->
  rows !! i
  = Some (padEnd operation 30 +:+ " " +:+ Visual.stackVisual W state).
Proof.
  revert h rows i.
  induction ops as [|op ops IH]; intros [|st h] rows i Hr Ho Hh; try done.
  cbn [Visual.render_rows] in Hr.
  destruct (Visual.render_rows W ops h) as [rows' |] eqn:Hrows; [| done].
  injection Hr as <-.
  destruct i as [|i]; cbn in *; [congruence |]. by eapply IH.
Qed.

Lemma render_rows_length W ops h :
  match Visual.render_rows W ops h with
  | Some rows => length rows = length ops /\ (length ops <= length h)%nat
  | None => (length h < length ops)%nat
  end.
Proof.
  revert h. induction ops as [|op ops IH]; intros [|st h]; cbn;
    [split; [done | lia] | split; [done | lia] | lia |].
  specialize (IH h). destruct (Visual.render_rows W ops h); cbn; lia.
Qed.

(** The longest-item loop returns a bound on every item text. *)
Lemma max_item_length_bound h state item :
  state ∈ h -> item ∈ state ->
  (String.length (to_string item) <= Visual.max_item_length h)%nat.
Proof.
  unfold Visual.max_item_length.
  set (f := fun (maxLength : nat) (item : value) =>
              if (maxLength <? String.length (to_string item))%nat
              then String.length (to_string item) else maxLength).
  assert (Hin : forall st m,
             (m <= foldl f m st)%nat
             /\ forall it, it ∈ st ->
                           (String.length (to_string it) <= foldl f m st)%nat).
  { induction st as [|y st IH]; intros m; cbn [foldl].
    - split; [lia | intros it Hit; by apply elem_of_nil in Hit].
    - destruct (IH (f m y)) as [Hge Hall].
      assert (m <= f m y /\ String.length (to_string y) <= f m y)%nat
        as [H1 H2].
      { unfold f. destruct (Nat.ltb_spec m (String.length (to_string y))); lia. }
      split; [lia |]. intros it [-> | Hit]%elem_of_cons; [lia | by apply Hall]. }
  cut (forall m,
          (m <= foldl (fun maxLength st => foldl f maxLength st) m h)%nat
          /\ (state ∈ h -> item ∈ state ->
              (String.length (to_string item)
               <= foldl (fun maxLength st => foldl f maxLength st) m h)%nat)).
  { intros Hcut Hs Hi. by apply (Hcut 0%nat). }
  induction h as [|st h IH]; intros m; cbn [foldl].
  - split; [lia | intros Hs; by apply elem_of_nil in Hs].
  - destruct (IH (foldl f m st)) as [Hge Hall].
    destruct (Hin st m) as [Hm Hst].
    split; [lia |]. intros [-> | Hs]%elem_of_cons Hi.
    + specialize (Hst _ Hi). lia.
    + by apply Hall.
Qed.

(** A row of cells is one bar plus one cell of fixed width per item,
    provided no item text is longer than the cell content. *)
Lemma stackVisual_length W state :
  (forall item, item ∈ state -> (String.length (to_string item) <= W)%nat) ->
  String.length (Visual.stackVisual W state)
  = (1 + length state * (W + 2))%nat.
Proof.
  intros Hall. unfold Visual.stackVisual.
  assert (Hfold : forall st acc,
             (forall item, item ∈ st ->
                           (String.length (to_string item) <= W)%nat) ->
             String.length
               (foldl (fun acc item =>
                         acc +:+ " " +:+ padEnd (to_string item) W +:+ "|")
                      acc st)
             = (String.length acc + length st * (W + 2))%nat).
  { induction st as [|y st IH]; intros acc Hst; cbn [foldl length]; [lia |].
    rewrite IH by (intros it Hit; apply Hst; by right).
    rewrite !string_length_app, padEnd_length.
    specialize (Hst y ltac:(by left)).
    change (String.length " ") with 1%nat.
    change (String.length "|") with 1%nat. lia. }
  destruct state as [|y st]; [done |].
  change (0 <? length (y :: st))%nat with true. cbv iota.
  by rewrite Hfold.
Qed.
Lemma string_app_nil_r (s : string) : s +:+ "" = s.
Proof.
  induction s as [|c s IH]; [done |].
  change (String c (s +:+ "") = String c s). by rewrite IH.
Qed.

(** A row of cells is the bar followed by the cells, one per item. *)
Lemma stackVisual_cells W state :
  Visual.stackVisual W state
  = "|" +:+ foldr (fun item cells =>
                     (" " +:+ padEnd (to_string item) W +:+ "|") +:+ cells)
                  "" state.
Proof.
  unfold Visual.stackVisual.
  assert (Hfold : forall st acc,
             foldl (fun acc item =>
                      acc +:+ " " +:+ padEnd (to_string item) W +:+ "|")
                   acc st
             = acc +:+ foldr (fun item cells =>
                                (" " +:+ padEnd (to_string item) W +:+ "|")
                                +:+ cells)
                             "" st).
  { induction st as [|y st IH]; intros acc; cbn [foldl foldr].
    - by rewrite string_app_nil_r.
    - by rewrite IH, string_app_assoc. }
  destruct state as [|y st]; [done |].
  change (0 <? length (y :: st))%nat with true. cbv iota.
  apply Hfold.
Qed.
End RenderFacts.

(** [renderHistory] throws exactly when there are fewer snapshots than
    operations, which never happens in a state reached through the
    methods; otherwise it prints five lines more than there are recorded
    operations. *)
Theorem renderHistory_lines (vs : Visual.VisualStack) :
  (Visual.renderHistory vs = None
   <-> (length (Visual.history vs) < length (Visual.operations vs))%nat)
  /\ (forall lines,
         Visual.renderHistory vs = Some lines ->
         length lines = (5 + length (Visual.operations vs))%nat)
  /\ (Visual.reachable vs -> is_Some (Visual.renderHistory vs)).
Proof.
  unfold Visual.renderHistory.
  pose proof (render_rows_length (Visual.max_item_length (Visual.history vs) + 2)
                (Visual.operations vs) (Visual.history vs)) as Hlen.
  destruct (Visual.render_rows _ _ _) as [rows |].
  - destruct Hlen as [Hrows Hle]. split; [split; [done | lia] |]. split.
    + intros lines [= <-]. cbn [app length]. rewrite length_app. cbn. lia.
    + intros _. by eexists.
  - split; [done |]. split; [done |].
    intros Hreach.
    match goal with
    | |- is_Some _ => exfalso
    end.
    revert Hlen. clear -Hreach.
    induction Hreach as [n | x vs _ IH | vs _ IH | op vs _ IH].
    + cbn. lia.
    + destruct vs as [l n h o]. rewrite visual_push_spec.
      cbn [snd Visual.history Visual.operations] in *.
      rewrite !length_app. cbn [length]. lia.
    + destruct vs as [l n h o]. destruct l as [|y l _] using rev_ind.
      * by rewrite visual_pop_nil.
      * rewrite visual_pop_snoc.
        cbn [snd Visual.history Visual.operations] in *.
        rewrite !length_app. cbn [length]. lia.
    + destruct vs as [l n h o]. rewrite visual_record_spec.
      cbn [snd Visual.history Visual.operations] in *.
      rewrite !length_app. cbn [length]. lia.
Qed.

Lemma renderHistory_lines_witness :
  is_Some (Visual.renderHistory
             (snd (Visual.pop (snd (Visual.push signature (Visual.new "demo")))))).
Proof.
  apply (renderHistory_lines
           (snd (Visual.pop (snd (Visual.push signature (Visual.new "demo")))))).
  do 2 constructor. constructor.
Defined.

(** The table is aligned.  The line printed for operation [i] is its
    label followed by spaces up to 30 characters (a longer label is not
    cut), a space, a bar, and one cell per item of snapshot [i], in
    order; a cell is a space, the item text, spaces up to the common
    width, and a bar.  Every cell is four characters longer than the
    longest item text of the whole history. *)
Theorem renderHistory_aligned (vs : Visual.VisualStack)
    (lines : list string) (i : nat) (operation : string) (state : list value) :
  Visual.renderHistory vs = Some lines ->
  Visual.operations vs !! i = Some operation ->
  Visual.history vs !! i = Some state ->
  let width := (Visual.max_item_length (Visual.history vs) + 2)%nat in
  let cell := fun item : value =>
                " " +:+ (to_string item
                         +:+ repeat_char " "
                               (width - String.length (to_string item)))
                +:+ "|" in
  lines !! (4 + i)%nat
  = Some ((operation +:+ repeat_char " " (30 - String.length operation))
          +:+ " " +:+ "|"
          +:+ foldr (fun item cells => cell item +:+ cells) "" state)
  /\ Forall (fun item => String.length (cell item) = (width + 2)%nat) state.
Proof.
  unfold Visual.renderHistory. intros Hr Ho Hh. cbv zeta.
  destruct (Visual.render_rows _ _ _) as [rows |] eqn:Hrows; [| done].
  injection Hr as <-.
  pose proof (render_rows_lookup _ _ _ _ _ _ _ Hrows Ho Hh) as Hrow.
  split.
  - assert (Hshift : forall hd tl : list string,
               length hd = 4%nat -> (hd ++ tl) !! (4 + i)%nat = tl !! i).
    { intros hd tl Hhd. rewrite lookup_app_r by lia. f_equal. lia. }
    etrans; [exact (Hshift [_; _; _; _] (rows ++ [_]) eq_refl) |].
    rewrite lookup_app_l by (by apply lookup_lt_Some in Hrow).
    rewrite Hrow. do 3 f_equal. apply stackVisual_cells.
  - apply Forall_forall. intros item Hitem.
    pose proof (max_item_length_bound (Visual.history vs) state item
                  ltac:(by eapply list_elem_of_lookup_2) Hitem).
    rewrite !string_length_app, repeat_char_length.
    change (String.length " ") with 1%nat.
    change (String.length "|") with 1%nat. lia.
Qed.

Lemma renderHistory_aligned_witness :
  default [] (Visual.renderHistory
                (snd (Visual.push (JStr "PubKey-Alice")
                        (snd (Visual.push (JStr "Sig-Alice")
                                (Visual.new "demo"))))))
    !! 5%nat
  = Some "Push: PubKey-Alice             | Sig-Alice     | PubKey-Alice  |".
Proof.
  apply (renderHistory_aligned
           (snd (Visual.push (JStr "PubKey-Alice")
                   (snd (Visual.push (JStr "Sig-Alice") (Visual.new "demo")))))
           _ 1 "Push: PubKey-Alice" [JStr "Sig-Alice"; JStr "PubKey-Alice"]);
    vm_compute; reflexivity.
Defined.

(** ** The replays of the visualisation *)

Lemma substring_prefix_all (s : string) (k : nat) :
  String.substring 0 k s = s <-> (String.length s <= k)%nat.
Proof.
  revert k. induction s as [|c s IH]; intros [|k]; cbn; try (split; [lia | done]).
  - split; [discriminate | lia].
  - rewrite <- Nat.succ_le_mono, <- IH. split; [by intros [= ->] | by intros ->].
Qed.


Lemma visual_top_item_snoc x l n h o :
  Visual.top_item (Visual.mkVisualStack (l ++ [x]) n h o)
  = (x, Visual.mkVisualStack (l ++ [x]) n h o).
Proof.
  unfold Visual.top_item. cbn [Visual.items].
  rewrite length_app, Nat.add_1_r.
  replace (S (length l) - 1)%nat with (length l) by lia.
  by rewrite list_lookup_middle.
Qed.

(** Rewrites a replay step by step. *)
Ltac visual_steps :=
  unfold Visual.bind, Visual.ret, Visual.new;
  repeat first
    [ rewrite visual_push_spec | rewrite visual_pop_snoc
    | rewrite visual_top_item_snoc | rewrite visual_record_spec
    | rewrite visual_pop_nil ].

Lemma substring_label (publicKeyHash : string) :
  Visual.equalverify_label (JStr publicKeyHash)
    (JStr (String.substring 0 6 publicKeyHash))
  = "OP_EQUALVERIFY: "
    +:+ (if (String.length publicKeyHash <=? 6)%nat
         then "Equal, continue" else "Not equal, fail").
Proof.
  unfold Visual.equalverify_label, strict_eq. f_equal.
  destruct (Nat.leb_spec (String.length publicKeyHash) 6) as [Hle | Hgt].
  - apply substring_prefix_all in Hle. by rewrite Hle, bool_decide_eq_true_2.
  - rewrite bool_decide_eq_false_2; [done |].
    intros [= H]. symmetry in H. apply substring_prefix_all in H. lia.
Qed.

(** [visualizeP2PKH] ends with the single item [1] on the stack for every
    signature, key and hash: nothing is verified.  It records twelve
    operations; the ninth is the [OP_EQUALVERIFY] label, which says
    "Equal, continue" exactly when the hash has at most six characters,
    because the replay compares the hash with its own first six
    characters. *)
Theorem visualizeP2PKH_outcome (signature publicKey : value) (publicKeyHash : string) :
  let vs := Visual.visualizeP2PKH signature publicKey publicKeyHash in
  Visual.items vs = [JNum 1]
  /\ length (Visual.operations vs) = 12%nat
  /\ Visual.operations vs !! 8%nat
     = Some ("OP_EQUALVERIFY: "
             +:+ (if (String.length publicKeyHash <=? 6)%nat
                  then "Equal, continue" else "Not equal, fail")).
Proof.
  cbv zeta. unfold Visual.visualizeP2PKH, Visual.p2pkh_steps.
  visual_steps. cbn [snd Visual.items Visual.operations app length].
  split; [done |]. split; [done |].
  cbn [lookup list_lookup]. by rewrite substring_label.
Qed.

(** [visualizeP2WPKH] is [visualizeP2PKH] after one extra record: the
    same final stack, the same operations and snapshots after the entry
    for the witness program. *)
Theorem visualizeP2WPKH_as_P2PKH (signature publicKey : value) (publicKeyHash : string) :
  let w := Visual.visualizeP2WPKH signature publicKey publicKeyHash in
  let p := Visual.visualizeP2PKH signature publicKey publicKeyHash in
  Visual.items w = Visual.items p
  /\ Visual.operations w
     = "Execute witness program (validation of version 0)"
       :: Visual.operations p
  /\ Visual.history w = [] :: Visual.history p.
Proof.
  cbv zeta.
  unfold Visual.visualizeP2WPKH, Visual.visualizeP2PKH, Visual.p2pkh_steps.
  visual_steps.
  cbn [snd Visual.items Visual.operations Visual.history app]. done.
Qed.

(** [visualizeP2SH] compares the hash literal with the fixed string
    ["RSHash"], not with a hash of the redeem script.  When they are
    equal it ends with the single item [1] whatever the two signatures
    are; otherwise it ends with both signatures under a [0] and its last
    record says that the script is invalid. *)
Theorem visualizeP2SH_outcome (sig1 sig2 redeemScript redeemScriptHash : value) :
  let vs := Visual.visualizeP2SH sig1 sig2 redeemScript redeemScriptHash in
  (redeemScriptHash = JStr "RSHash" ->
   Visual.items vs = [JNum 1] /\ length (Visual.operations vs) = 15%nat)
  /\ (redeemScriptHash <> JStr "RSHash" ->
      Visual.items vs = [sig1; sig2; JNum 0]
      /\ last (Visual.operations vs) = Some "OP_EQUAL: Failed, script invalid").
Proof.
  cbv zeta. unfold Visual.visualizeP2SH. visual_steps.
  split.
  - intros ->. rewrite strict_eq_refl.
    change (strict_eq (JNum 1) (JNum 1)) with true. cbv iota.
    visual_steps. cbn [snd Visual.items Visual.operations app length]. done.
  - intros Hne.
    assert (Hf : strict_eq redeemScriptHash (JStr "RSHash") = false)
      by (unfold strict_eq; by rewrite bool_decide_eq_false).
    rewrite Hf. change (strict_eq (JNum 0) (JNum 1)) with false. cbv iota.
    visual_steps. cbn [snd Visual.items Visual.operations app].
    split; reflexivity.
Qed.

Lemma visualizeP2SH_outcome_witness :
  Visual.items (Visual.visualizeP2SH (JStr "Sig-Alice") (JStr "Sig-Bob")
                  (JStr "2-of-2 MultiSig Script") (JStr "RSHash"))
  = [JNum 1]
  /\ Visual.items (Visual.visualizeP2SH (JStr "Sig-Alice") (JStr "Sig-Bob")
                     (JStr "2-of-2 MultiSig Script") (JStr "other"))
     = [JStr "Sig-Alice"; JStr "Sig-Bob"; JNum 0].
Proof.
  split.
  - apply (visualizeP2SH_outcome (JStr "Sig-Alice") (JStr "Sig-Bob")
             (JStr "2-of-2 MultiSig Script") (JStr "RSHash")). reflexivity.
  - apply (visualizeP2SH_outcome (JStr "Sig-Alice") (JStr "Sig-Bob")
             (JStr "2-of-2 MultiSig Script") (JStr "other")). discriminate.
Defined.

